(** * The aggregator core of aligned_layer: task registry, intake,
      aggregation-loop handler and garbage collector.

    Shallow embedding of [aggregator/pkg/aggregator.go].  The five registry
    maps are finite maps, [uint32] values are integers with their wrap-around
    written out, byte arrays are lists of bytes, and the calls the aggregator
    makes to its collaborators (logger, telemetry, metrics, BLS service,
    chain reader and writer) are recorded in a trace. *)

From Stdlib Require Import ZArith Lia List String.
From Stdlib.Strings Require Import Byte.
From stdpp Require Import gmap strings list fin_maps.

Local Open Scope Z_scope.

(** ** Bytes as map keys *)

#[global] Instance byte_eq_decision : EqDecision byte := Byte.byte_eq_dec.

#[global] Instance byte_countable : Countable byte :=
  inj_countable Byte.to_N Byte.of_N Byte.of_to_N.

(** The zero value of a Go byte array [[n]byte]. *)
Definition zeroBytes (n : nat) : list byte := repeat x00 n.

(** ** Machine integers *)

(** [uint32] arithmetic wraps modulo [2^32]. *)
Definition uint32 (z : Z) : Z := z mod 2 ^ 32.

Definition maxUint32 : Z := 2 ^ 32 - 1.

(** [uint64(x)] of a [uint32] value keeps the value. *)
Definition uint64 (z : Z) : Z := z mod 2 ^ 64.

(** ** Constants of the protocol layer *)

Definition QUORUM_NUMBER : Z := 0.
Definition QUORUM_THRESHOLD : Z := 67.
Definition MaxSentTxRetries : Z := 5.

(** ** Collaborators

    What the aggregator takes from outside [aggregator.go]: the Keccak-256
    digest of go-ethereum, the curve points of the BLS service and their
    conversion to the contract bindings ([core/utils]), and the [String]
    methods used for the receipt. *)

Class Collaborators := {
  G1Point : Type;
  G2Point : Type;
  BN254G1Point : Type;
  BN254G2Point : Type;
  ConvertToBN254G1Point : G1Point -> BN254G1Point;
  ConvertToBN254G2Point : G2Point -> BN254G2Point;
  Keccak256 : list byte -> list byte;
  Keccak256_length : forall bs, length (Keccak256 bs) = 32%nat;
  HashString : list byte -> string;
  BigIntString : option Z -> string
}.

(** ** Data model *)

(** [BatchData]: the value type of [batchDataByIdentifierHash]. *)
Record BatchData := {
  BatchMerkleRoot : list byte;   (* [32]byte *)
  SenderAddress : list byte      (* [20]byte *)
}.

Definition zeroBatchData : BatchData :=
  {| BatchMerkleRoot := zeroBytes 32; SenderAddress := zeroBytes 20 |}.

(** The registry fields of [Aggregator], all protected by [taskMutex].
    [time.Time] is an integer timestamp whose zero value is [0]. *)
Record Aggregator := {
  batchesIdentifierHashByIdx : gmap Z (list byte);
  batchesIdxByIdentifierHash : gmap (list byte) Z;
  batchCreatedBlockByIdx : gmap Z Z;
  batchDataByIdentifierHash : gmap (list byte) BatchData;
  batchStartTimeByIdx : gmap Z Z;
  nextBatchIndex : Z
}.

(** [NewAggregator]: five empty maps and [nextBatchIndex := uint32(0)]. *)
Definition NewAggregator : Aggregator :=
  {| batchesIdentifierHashByIdx := ∅;
     batchesIdxByIdentifierHash := ∅;
     batchCreatedBlockByIdx := ∅;
     batchDataByIdentifierHash := ∅;
     batchStartTimeByIdx := ∅;
     nextBatchIndex := uint32 0 |}.

Inductive Mutex := TaskMutex | WalletMutex.

Inductive Level := Info | Warn | Error | Fatal.

Section Core.

Context `{C : Collaborators}.

(** [servicemanager.IBLSSignatureCheckerNonSignerStakesAndSignature]. *)
Record NonSignerStakesAndSignature := {
  NonSignerPubkeys : list BN254G1Point;
  QuorumApks : list BN254G1Point;
  ApkG2 : BN254G2Point;
  Sigma : BN254G1Point;
  NonSignerQuorumBitmapIndices : list Z;
  QuorumApkIndices : list Z;
  TotalStakeIndices : list Z;
  NonSignerStakeIndices : list (list Z)
}.

(** [blsagg.BlsAggregationServiceResponse]; [respErr = None] is a nil [Err]. *)
Record BlsAggregationServiceResponse := {
  respErr : option string;
  TaskIndex : Z;
  NonSignersPubkeysG1 : list G1Point;
  QuorumApksG1 : list G1Point;
  SignersApkG2 : G2Point;
  SignersAggSigG1 : G1Point;
  respNonSignerQuorumBitmapIndices : list Z;
  respQuorumApkIndices : list Z;
  respTotalStakeIndices : list Z;
  respNonSignerStakeIndices : list (list Z)
}.

(** The two fields of [gethtypes.Receipt] that the aggregator reads. *)
Record Receipt := {
  TxHash : list byte;
  EffectiveGasPrice : option Z
}.

(** Calls to collaborators, in the order the code makes them.  Logger calls
    keep their level and message; a mutex release records the registry as it
    becomes visible to the other goroutines. *)
Inductive Event :=
| Log (l : Level) (msg : string)
| Lock (m : Mutex)
| Unlock (m : Mutex) (visible : Aggregator)
| InitNewTrace (merkleRoot : list byte)
| FinishTrace (merkleRoot : list byte)
| LogTaskError (merkleRoot : list byte) (err : string)
| LogQuorumReached (merkleRoot : list byte)
| TaskSentToEthereum (merkleRoot : list byte) (txHash gasPrice : string)
| ObserveTaskQuorumReached (elapsed : Z)
| ObserveLatencyForRespondToTask (elapsed : Z)
| IncAggregatedResponses
| IncAggregatorReceivedTasks
| InitializeNewTaskWithWindow (taskIndex createdBlock : Z)
    (quorumNums thresholds : list Z)
| WaitForOneBlock (createdBlock : Z)
| SendAggregatedResponse (batchIdentifierHash merkleRoot sender : list byte)
    (payload : NonSignerStakesAndSignature).

(** The state the goroutines share, the local variable [lastIdxDeleted] of the
    garbage-collector goroutine, and the trace (newest event first). *)
Record World := {
  agg : Aggregator;
  taskMutex : bool;
  walletMutex : bool;
  lastIdxDeleted : Z;
  trace : list Event
}.

(** The world once [NewAggregator] has returned and [ClearTasksFromMaps] has
    run [lastIdxDeleted := uint32(0)]. *)
Definition initWorld : World :=
  {| agg := NewAggregator; taskMutex := false; walletMutex := false;
     lastIdxDeleted := uint32 0; trace := [] |}.

(** ** A small monad for the code's effects

    A call returns, or ends the process ([logger.Fatalf]), or waits for a
    mutex nobody will release, or its loop is still running when the fuel is
    used up. *)
Inductive Outcome (A : Type) :=
| Returned (a : A) (w : World)
| Exited (w : World)
| Blocked (w : World)
| OutOfFuel.

Arguments Returned {A} a w.
Arguments Exited {A} w.
Arguments Blocked {A} w.
Arguments OutOfFuel {A}.

Definition M (A : Type) : Type := World -> Outcome A.

#[local] Instance M_ret : MRet M := fun A (a : A) w => Returned a w.

#[local] Instance M_bind : MBind M := fun A B (k : A -> M B) (m : M A) w =>
  match m w with
  | Returned a w' => k a w'
  | Exited w' => Exited w'
  | Blocked w' => Blocked w'
  | OutOfFuel => OutOfFuel
  end.

Definition emit (e : Event) : M unit :=
  fun w =>
    Returned tt {| agg := agg w; taskMutex := taskMutex w;
                   walletMutex := walletMutex w;
                   lastIdxDeleted := lastIdxDeleted w;
                   trace := e :: trace w |}.

Definition getAgg : M Aggregator := fun w => Returned (agg w) w.

Definition modifyAgg (f : Aggregator -> Aggregator) : M unit :=
  fun w =>
    Returned tt {| agg := f (agg w); taskMutex := taskMutex w;
                   walletMutex := walletMutex w;
                   lastIdxDeleted := lastIdxDeleted w;
                   trace := trace w |}.

Definition getLastIdxDeleted : M Z := fun w => Returned (lastIdxDeleted w) w.

Definition setLastIdxDeleted (i : Z) : M unit :=
  fun w =>
    Returned tt {| agg := agg w; taskMutex := taskMutex w;
                   walletMutex := walletMutex w;
                   lastIdxDeleted := i;
                   trace := trace w |}.

Definition held (m : Mutex) (w : World) : bool :=
  match m with TaskMutex => taskMutex w | WalletMutex => walletMutex w end.

Definition setHeld (m : Mutex) (b : bool) (w : World) : World :=
  {| agg := agg w;
     taskMutex := match m with TaskMutex => b | WalletMutex => taskMutex w end;
     walletMutex := match m with WalletMutex => b | TaskMutex => walletMutex w end;
     lastIdxDeleted := lastIdxDeleted w;
     trace := trace w |}.

(** [m.Lock()] *)
Definition lock (m : Mutex) : M unit :=
  fun w => if held m w then Blocked w
           else emit (Lock m) (setHeld m true w).

(** [m.Unlock()] *)
Definition unlock (m : Mutex) : M unit :=
  fun w => emit (Unlock m (agg w)) (setHeld m false w).

(** [logger.Fatalf]: the message is logged and the process exits. *)
Definition fatalf (msg : string) : M unit :=
  fun w =>
    match emit (Log Fatal msg) w with
    | Returned _ w' => Exited w'
    | o => o
    end.

(** ** Registry writes, one per map *)

Definition setIdxByIdentifierHash (h : list byte) (i : Z) (a : Aggregator) :=
  {| batchesIdentifierHashByIdx := batchesIdentifierHashByIdx a;
     batchesIdxByIdentifierHash := <[h := i]> (batchesIdxByIdentifierHash a);
     batchCreatedBlockByIdx := batchCreatedBlockByIdx a;
     batchDataByIdentifierHash := batchDataByIdentifierHash a;
     batchStartTimeByIdx := batchStartTimeByIdx a;
     nextBatchIndex := nextBatchIndex a |}.

Definition setCreatedBlockByIdx (i b : Z) (a : Aggregator) :=
  {| batchesIdentifierHashByIdx := batchesIdentifierHashByIdx a;
     batchesIdxByIdentifierHash := batchesIdxByIdentifierHash a;
     batchCreatedBlockByIdx := <[i := b]> (batchCreatedBlockByIdx a);
     batchDataByIdentifierHash := batchDataByIdentifierHash a;
     batchStartTimeByIdx := batchStartTimeByIdx a;
     nextBatchIndex := nextBatchIndex a |}.

Definition setIdentifierHashByIdx (i : Z) (h : list byte) (a : Aggregator) :=
  {| batchesIdentifierHashByIdx := <[i := h]> (batchesIdentifierHashByIdx a);
     batchesIdxByIdentifierHash := batchesIdxByIdentifierHash a;
     batchCreatedBlockByIdx := batchCreatedBlockByIdx a;
     batchDataByIdentifierHash := batchDataByIdentifierHash a;
     batchStartTimeByIdx := batchStartTimeByIdx a;
     nextBatchIndex := nextBatchIndex a |}.

Definition setDataByIdentifierHash (h : list byte) (d : BatchData)
    (a : Aggregator) :=
  {| batchesIdentifierHashByIdx := batchesIdentifierHashByIdx a;
     batchesIdxByIdentifierHash := batchesIdxByIdentifierHash a;
     batchCreatedBlockByIdx := batchCreatedBlockByIdx a;
     batchDataByIdentifierHash := <[h := d]> (batchDataByIdentifierHash a);
     batchStartTimeByIdx := batchStartTimeByIdx a;
     nextBatchIndex := nextBatchIndex a |}.

Definition setStartTimeByIdx (i t : Z) (a : Aggregator) :=
  {| batchesIdentifierHashByIdx := batchesIdentifierHashByIdx a;
     batchesIdxByIdentifierHash := batchesIdxByIdentifierHash a;
     batchCreatedBlockByIdx := batchCreatedBlockByIdx a;
     batchDataByIdentifierHash := batchDataByIdentifierHash a;
     batchStartTimeByIdx := <[i := t]> (batchStartTimeByIdx a);
     nextBatchIndex := nextBatchIndex a |}.

(** [agg.nextBatchIndex += 1] on a [uint32]. *)
Definition incNextBatchIndex (a : Aggregator) :=
  {| batchesIdentifierHashByIdx := batchesIdentifierHashByIdx a;
     batchesIdxByIdentifierHash := batchesIdxByIdentifierHash a;
     batchCreatedBlockByIdx := batchCreatedBlockByIdx a;
     batchDataByIdentifierHash := batchDataByIdentifierHash a;
     batchStartTimeByIdx := batchStartTimeByIdx a;
     nextBatchIndex := uint32 (nextBatchIndex a + 1) |}.

(** The five [delete] calls of the garbage collector for index [i] whose
    identifier hash is [h]. *)
Definition deleteEntries (i : Z) (h : list byte) (a : Aggregator) :=
  {| batchesIdentifierHashByIdx := delete i (batchesIdentifierHashByIdx a);
     batchesIdxByIdentifierHash := delete h (batchesIdxByIdentifierHash a);
     batchCreatedBlockByIdx := delete i (batchCreatedBlockByIdx a);
     batchDataByIdentifierHash := delete h (batchDataByIdentifierHash a);
     batchStartTimeByIdx := delete i (batchStartTimeByIdx a);
     nextBatchIndex := nextBatchIndex a |}.

(** ** Intake: [AddNewTask]

    [now] is what [time.Now()] returns and [blsErr] what
    [InitializeNewTaskWithWindow] returns. *)
Definition batchIdentifierHashOf (batchMerkleRoot senderAddress : list byte)
    : list byte :=
  let batchIdentifier := batchMerkleRoot ++ senderAddress in
  Keccak256 batchIdentifier.

Definition AddNewTask (batchMerkleRoot senderAddress : list byte)
    (taskCreatedBlock : Z) (now : Z) (blsErr : option string) : M unit :=
  emit (InitNewTrace batchMerkleRoot) ;;
  let batchIdentifierHash :=
    batchIdentifierHashOf batchMerkleRoot senderAddress in
  emit (Log Info "Adding new task") ;;
  lock TaskMutex ;;
  emit (Log Info "- Locked Resources: Adding new task") ;;
  a ← getAgg ;
  let batchIndex := nextBatchIndex a in
  match batchesIdxByIdentifierHash a !! batchIdentifierHash with
  | Some _ =>
      emit (Log Warn "Batch already exists") ;;
      unlock TaskMutex ;;
      emit (Log Info "- Unlocked Resources: Adding new task")
  | None =>
      (* This shouldn't happen, since both maps are updated together *)
      match batchesIdentifierHashByIdx a !! batchIndex with
      | Some _ =>
          emit (Log Warn "Batch already exists") ;;
          unlock TaskMutex ;;
          emit (Log Info "- Unlocked Resources: Adding new task")
      | None =>
          modifyAgg (setIdxByIdentifierHash batchIdentifierHash batchIndex) ;;
          modifyAgg (setCreatedBlockByIdx batchIndex (uint64 taskCreatedBlock)) ;;
          modifyAgg (setIdentifierHashByIdx batchIndex batchIdentifierHash) ;;
          modifyAgg (setDataByIdentifierHash batchIdentifierHash
                       {| BatchMerkleRoot := batchMerkleRoot;
                          SenderAddress := senderAddress |}) ;;
          modifyAgg (setStartTimeByIdx batchIndex now) ;;
          emit (Log Info "Task Info added in aggregator:") ;;
          modifyAgg incNextBatchIndex ;;
          let quorumNums := [QUORUM_NUMBER] in
          let quorumThresholdPercentages := [QUORUM_THRESHOLD] in
          emit (InitializeNewTaskWithWindow batchIndex taskCreatedBlock
                  quorumNums quorumThresholdPercentages) ;;
          match blsErr with
          | Some _ =>
              fatalf "BLS aggregation service error when initializing new task: %s"
          | None => mret tt
          end ;;
          emit IncAggregatorReceivedTasks ;;
          unlock TaskMutex ;;
          emit (Log Info "- Unlocked Resources: Adding new task") ;;
          emit (Log Info "New task added")
      end
  end.

(** ** On-chain submitter: [sendAggregatedResponse]

    [written] is what [avsWriter.SendAggregatedResponse] returns (receipt and
    error) and [elapsed] is [time.Since(startTime)]. *)
Definition sendAggregatedResponse
    (batchIdentifierHash batchMerkleRoot senderAddress : list byte)
    (nonSignerStakesAndSignature : NonSignerStakesAndSignature)
    (written : option Receipt * option string) (elapsed : Z)
    : M (option Receipt * option string) :=
  lock WalletMutex ;;
  emit (Log Info "- Locked Wallet Resources: Sending aggregated response for batch") ;;
  emit (SendAggregatedResponse batchIdentifierHash batchMerkleRoot
          senderAddress nonSignerStakesAndSignature) ;;
  let '(receipt, err) := written in
  match err with
  | Some e =>
      unlock WalletMutex ;;
      emit (Log Info "- Unlocked Wallet Resources: Error sending aggregated response for batch %s. Error: %s") ;;
      mret (None, Some e)
  | None =>
      (* We only send the latency metric if the response is successul *)
      emit (ObserveLatencyForRespondToTask elapsed) ;;
      unlock WalletMutex ;;
      emit (Log Info "- Unlocked Wallet Resources: Sending aggregated response for batch %s") ;;
      emit IncAggregatedResponses ;;
      mret (receipt, None)
  end.

(** ** Aggregation loop: [handleBlsAggServiceResponse] *)

(** What the chain and the clock answer while one response is handled. *)
Record Replies := {
  sinceCreated : Z -> Z;              (* time.Since(taskCreatedAt) *)
  waitErr : option string;            (* WaitForOneBlock *)
  written : option Receipt * option string;
  sinceStart : Z                      (* time.Since(startTime) *)
}.

(** A Go map read [m[k]]: the zero value when the key is absent. *)
Definition readOr {K V} `{Countable K} (zero : V) (m : gmap K V) (k : K) : V :=
  match m !! k with Some v => v | None => zero end.

Definition handleBlsAggServiceResponse
    (blsAggServiceResp : BlsAggregationServiceResponse) (r : Replies)
    : M unit :=
  lock TaskMutex ;;
  emit (Log Info "- Locked Resources: Fetching task data") ;;
  a ← getAgg ;
  let batchIdentifierHash :=
    readOr (zeroBytes 32) (batchesIdentifierHashByIdx a)
      (TaskIndex blsAggServiceResp) in
  let batchData :=
    readOr zeroBatchData (batchDataByIdentifierHash a) batchIdentifierHash in
  let taskCreatedBlock :=
    readOr 0 (batchCreatedBlockByIdx a) (TaskIndex blsAggServiceResp) in
  let taskCreatedAt :=
    readOr 0 (batchStartTimeByIdx a) (TaskIndex blsAggServiceResp) in
  unlock TaskMutex ;;
  emit (Log Info "- Unlocked Resources: Fetching task data") ;;
  (* defer agg.telemetry.FinishTrace(batchData.BatchMerkleRoot) *)
  let finish := emit (FinishTrace (BatchMerkleRoot batchData)) in
  match respErr blsAggServiceResp with
  | Some e =>
      emit (LogTaskError (BatchMerkleRoot batchData) e) ;;
      emit (Log Error "BlsAggregationServiceResponse contains an error") ;;
      finish
  | None =>
      let nonSignerPubkeys :=
        map ConvertToBN254G1Point (NonSignersPubkeysG1 blsAggServiceResp) in
      let quorumApks :=
        map ConvertToBN254G1Point (QuorumApksG1 blsAggServiceResp) in
      let nonSignerStakesAndSignature :=
        {| NonSignerPubkeys := nonSignerPubkeys;
           QuorumApks := quorumApks;
           ApkG2 := ConvertToBN254G2Point (SignersApkG2 blsAggServiceResp);
           Sigma := ConvertToBN254G1Point (SignersAggSigG1 blsAggServiceResp);
           NonSignerQuorumBitmapIndices :=
             respNonSignerQuorumBitmapIndices blsAggServiceResp;
           QuorumApkIndices := respQuorumApkIndices blsAggServiceResp;
           TotalStakeIndices := respTotalStakeIndices blsAggServiceResp;
           NonSignerStakeIndices :=
             respNonSignerStakeIndices blsAggServiceResp |} in
      emit (LogQuorumReached (BatchMerkleRoot batchData)) ;;
      (* Only observe quorum reached if successful *)
      emit (ObserveTaskQuorumReached (sinceCreated r taskCreatedAt)) ;;
      emit (Log Info "Threshold reached") ;;
      emit (Log Info "Maybe waiting one block to send aggregated response onchain") ;;
      emit (WaitForOneBlock taskCreatedBlock) ;;
      match waitErr r with
      | Some _ => emit (Log Error "Error waiting for one block, sending anyway")
      | None => mret tt
      end ;;
      emit (Log Info "Sending aggregated response onchain") ;;
      sent ← sendAggregatedResponse batchIdentifierHash
               (BatchMerkleRoot batchData) (SenderAddress batchData)
               nonSignerStakesAndSignature (written r) (sinceStart r) ;
      let '(receipt, err) := sent in
      match err with
      | None =>
          (* In some cases, we may fail to retrieve the receipt for the
             transaction. *)
          let txHash :=
            match receipt with
            | Some rc => HashString (TxHash rc)
            | None => "Unknown"%string
            end in
          let effectiveGasPrice :=
            match receipt with
            | Some rc => BigIntString (EffectiveGasPrice rc)
            | None => "Unknown"%string
            end in
          emit (TaskSentToEthereum (BatchMerkleRoot batchData) txHash
                  effectiveGasPrice) ;;
          emit (Log Info "Aggregator successfully responded to task") ;;
          finish
      | Some e =>
          emit (Log Error "Aggregator failed to respond to task, this batch will be lost") ;;
          emit (LogTaskError (BatchMerkleRoot batchData) e) ;;
          finish
      end
  end.

(** ** Garbage collector: [ClearTasksFromMaps] *)

(** The body of the deletion loop for one index [i]. *)
Definition clearTask (i : Z) : M unit :=
  a ← getAgg ;
  match batchesIdentifierHashByIdx a !! i with
  | Some batchIdentifierHash =>
      emit (Log Info "Cleaning up finalized task") ;;
      modifyAgg (deleteEntries i batchIdentifierHash)
  | None =>
      emit (Log Warn "Task not found in maps")
  end.

(** [for i := ...; i <= taskIdxToDelete; i++ { ... }] with [i] the current
    value of the [uint32] loop variable; [i++] wraps. *)
Fixpoint clearLoop (fuel : nat) (i taskIdxToDelete : Z) : M unit :=
  match fuel with
  | O => fun _ => OutOfFuel
  | S fuel' =>
      if decide (i <= taskIdxToDelete) then
        clearTask i ;;
        clearLoop fuel' (uint32 (i + 1)) taskIdxToDelete
      else mret tt
  end.

(** One round of the collector's endless [for], after the sleep.
    [oldTask] is what [avsReader.GetOldTaskHash] returns. *)
Definition ClearTasksFromMaps_round (fuel : nat)
    (oldTask : option (list byte) * option string) : M unit :=
  emit (Log Info "Cleaning finalized tasks from maps") ;;
  let '(oldTaskIdHash, err) := oldTask in
  match err with
  | Some _ =>
      emit (Log Error "Error getting old task hash, skipping this garbage collect")
  | None =>
      match oldTaskIdHash with
      | None => emit (Log Warn "No old tasks found")
      | Some h =>
          lock TaskMutex ;;
          emit (Log Info "- Locked Resources: Cleaning finalized tasks") ;;
          a ← getAgg ;
          let taskIdxToDelete := readOr 0 (batchesIdxByIdentifierHash a) h in
          emit (Log Info "Old task found") ;;
          (* delete from lastIdxDeleted to taskIdxToDelete *)
          last ← getLastIdxDeleted ;
          clearLoop fuel (uint32 (last + 1)) taskIdxToDelete ;;
          setLastIdxDeleted taskIdxToDelete ;;
          unlock TaskMutex ;;
          emit (Log Info "- Unlocked Resources: Cleaning finalized tasks") ;;
          emit (Log Info "Done cleaning finalized tasks from maps")
      end
  end.

(** [ClearTasksFromMaps] up to its first rounds: the opening log line,
    [lastIdxDeleted := uint32(0)], then one round per answer of the chain. *)
Fixpoint ClearTasksFromMaps_rounds (fuel : nat)
    (answers : list (option (list byte) * option string)) : M unit :=
  match answers with
  | [] => mret tt
  | oldTask :: rest =>
      ClearTasksFromMaps_round fuel oldTask ;;
      ClearTasksFromMaps_rounds fuel rest
  end.

Definition ClearTasksFromMaps (fuel : nat)
    (answers : list (option (list byte) * option string)) : M unit :=
  emit (Log Info "- Removing finalized Task Infos from Maps every %v") ;;
  setLastIdxDeleted (uint32 0) ;;
  ClearTasksFromMaps_rounds fuel answers.

(** ** Runs: the critical sections in the order the mutex serialises them *)

Inductive Op :=
| OpAddNewTask (batchMerkleRoot senderAddress : list byte)
    (taskCreatedBlock now : Z) (blsErr : option string)
| OpBlsResponse (resp : BlsAggregationServiceResponse) (r : Replies)
| OpGcRound (fuel : nat) (oldTask : option (list byte) * option string).

Definition step (op : Op) : M unit :=
  match op with
  | OpAddNewTask mr sender blk now blsErr => AddNewTask mr sender blk now blsErr
  | OpBlsResponse resp r => handleBlsAggServiceResponse resp r
  | OpGcRound fuel oldTask => ClearTasksFromMaps_round fuel oldTask
  end.

Fixpoint run (ops : list Op) : M unit :=
  match ops with
  | [] => mret tt
  | op :: rest => step op ;; run rest
  end.

(** [w] is a world the aggregator can be in between two calls. *)
Definition reachable (w : World) : Prop :=
  exists ops, run ops initWorld = Returned tt w.

End Core.

Arguments Returned {C A} a w.
Arguments Exited {C A} w.
Arguments Blocked {C A} w.
Arguments OutOfFuel {C A}.

#[global] Existing Instance M_ret.
#[global] Existing Instance M_bind.

(** ** Vocabulary of the specification *)

Section Vocabulary.

Context `{C : Collaborators}.

(** The registry once a successful [AddNewTask] has made its five map writes
    and incremented the counter. *)
Definition insertTask (h : list byte) (d : BatchData) (blk now : Z)
    (a : Aggregator) : Aggregator :=
  let i := nextBatchIndex a in
  incNextBatchIndex
    (setStartTimeByIdx i now
       (setDataByIdentifierHash h d
          (setIdentifierHashByIdx i h
             (setCreatedBlockByIdx i (uint64 blk)
                (setIdxByIdentifierHash h i a))))).

(** I1: the two index maps are inverses of each other. *)
Definition inverseMaps (a : Aggregator) : Prop :=
  forall (h : list byte) (i : Z),
    batchesIdxByIdentifierHash a !! h = Some i <->
    batchesIdentifierHashByIdx a !! i = Some h.


(** None of the five maps holds an entry of index [i]: no entry under the
    key [i], no hash mapped to [i], and every stored payload belongs to
    another index. *)
Definition noneOfFive (a : Aggregator) (i : Z) : Prop :=
  batchesIdentifierHashByIdx a !! i = None /\
  batchCreatedBlockByIdx a !! i = None /\
  batchStartTimeByIdx a !! i = None /\
  (forall h, batchesIdxByIdentifierHash a !! h <> Some i) /\
  (forall h, is_Some (batchDataByIdentifierHash a !! h) ->
             exists j, j <> i /\ batchesIdxByIdentifierHash a !! h = Some j).


(** What every registry between two critical sections satisfies. *)
Record RegistryInv (a : Aggregator) : Prop := {
  inv_inverse : inverseMaps a;
  inv_data : forall h, is_Some (batchDataByIdentifierHash a !! h) <->
                       is_Some (batchesIdxByIdentifierHash a !! h);
  inv_block : forall i, is_Some (batchCreatedBlockByIdx a !! i) <->
                        is_Some (batchesIdentifierHashByIdx a !! i);
  inv_time : forall i, is_Some (batchStartTimeByIdx a !! i) <->
                       is_Some (batchesIdentifierHashByIdx a !! i);
  inv_next : 0 <= nextBatchIndex a < 2 ^ 32;
  inv_keys : forall i, is_Some (batchesIdentifierHashByIdx a !! i) ->
                       0 <= i < 2 ^ 32
}.

(** The registry an [Unlock] publishes satisfies the invariant. *)
Definition releasedOk (e : Event) : Prop :=
  match e with
  | Unlock _ a => RegistryInv a
  | _ => True
  end.

Record WorldInv (w : World) : Prop := {
  winv_registry : RegistryInv (agg w);
  winv_task : taskMutex w = false;
  winv_wallet : walletMutex w = false;
  winv_last : 0 <= lastIdxDeleted w < 2 ^ 32 - 1;
  winv_released : Forall releasedOk (trace w)
}.

(** The effect on the registry of a deletion loop that ran over the indices
    [lo .. hi]. *)
Record clearedRange (lo hi : Z) (a a' : Aggregator) : Prop := {
  cr_hash : forall j,
    batchesIdentifierHashByIdx a' !! j =
    if decide (lo <= j <= hi) then None else batchesIdentifierHashByIdx a !! j;
  cr_block : forall j,
    batchCreatedBlockByIdx a' !! j =
    if decide (lo <= j <= hi) then None else batchCreatedBlockByIdx a !! j;
  cr_time : forall j,
    batchStartTimeByIdx a' !! j =
    if decide (lo <= j <= hi) then None else batchStartTimeByIdx a !! j;
  cr_idx : forall h,
    batchesIdxByIdentifierHash a' !! h =
    match batchesIdxByIdentifierHash a !! h with
    | Some j => if decide (lo <= j <= hi) then None else Some j
    | None => None
    end;
  cr_data : forall h,
    batchDataByIdentifierHash a' !! h =
    match batchesIdxByIdentifierHash a !! h with
    | Some j => if decide (lo <= j <= hi) then None
                else batchDataByIdentifierHash a !! h
    | None => None
    end;
  cr_next : nextBatchIndex a' = nextBatchIndex a
}.

(** [w] with the events [evs] (newest first) added to its trace. *)
Definition logged (evs : list Event) (w : World) : World :=
  {| agg := agg w; taskMutex := taskMutex w; walletMutex := walletMutex w;
     lastIdxDeleted := lastIdxDeleted w; trace := evs ++ trace w |}.

(** [w] with its registry replaced by [a]. *)
Definition withAgg (a : Aggregator) (w : World) : World :=
  {| agg := a; taskMutex := taskMutex w; walletMutex := walletMutex w;
     lastIdxDeleted := lastIdxDeleted w; trace := trace w |}.

Definition isInitializeNewTask (e : Event) : bool :=
  match e with InitializeNewTaskWithWindow _ _ _ _ => true | _ => false end.

Definition isSendAggregatedResponse (e : Event) : bool :=
  match e with SendAggregatedResponse _ _ _ _ => true | _ => false end.

Definition isLogTaskError (e : Event) : bool :=
  match e with LogTaskError _ _ => true | _ => false end.

Definition isTaskSentToEthereum (e : Event) : bool :=
  match e with TaskSentToEthereum _ _ _ => true | _ => false end.

(** The payload the handler assembles from a BLS response. *)
Definition payloadOf (resp : BlsAggregationServiceResponse)
    : NonSignerStakesAndSignature :=
  {| NonSignerPubkeys := map ConvertToBN254G1Point (NonSignersPubkeysG1 resp);
     QuorumApks := map ConvertToBN254G1Point (QuorumApksG1 resp);
     ApkG2 := ConvertToBN254G2Point (SignersApkG2 resp);
     Sigma := ConvertToBN254G1Point (SignersAggSigG1 resp);
     NonSignerQuorumBitmapIndices := respNonSignerQuorumBitmapIndices resp;
     QuorumApkIndices := respQuorumApkIndices resp;
     TotalStakeIndices := respTotalStakeIndices resp;
     NonSignerStakeIndices := respNonSignerStakeIndices resp |}.

(** A new batch as the subscriber hands it to [AddNewTask], with the reading
    of the clock at the insertion. *)
Record NewBatch := {
  nbMerkleRoot : list byte;
  nbSender : list byte;
  nbCreatedBlock : Z;
  nbNow : Z
}.

Definition identifierOf (b : NewBatch) : list byte :=
  batchIdentifierHashOf (nbMerkleRoot b) (nbSender b).

(** The call of [AddNewTask] for [b] when the BLS service accepts the task. *)
Definition admission (b : NewBatch) : Op :=
  OpAddNewTask (nbMerkleRoot b) (nbSender b) (nbCreatedBlock b) (nbNow b) None.

(** What the registry holds for the batch [b] at index [i]. *)
Definition holds (a : Aggregator) (i : Z) (b : NewBatch) : Prop :=
  batchesIdentifierHashByIdx a !! i = Some (identifierOf b) /\
  batchesIdxByIdentifierHash a !! identifierOf b = Some i /\
  batchCreatedBlockByIdx a !! i = Some (uint64 (nbCreatedBlock b)) /\
  batchDataByIdentifierHash a !! identifierOf b =
    Some {| BatchMerkleRoot := nbMerkleRoot b; SenderAddress := nbSender b |} /\
  batchStartTimeByIdx a !! i = Some (nbNow b).

(** Every index in use is below the counter: true until the counter wraps. *)
Definition belowNext (a : Aggregator) : Prop :=
  forall i, is_Some (batchesIdentifierHashByIdx a !! i) -> i < nextBatchIndex a.

(** The number of [AddNewTask] calls of a run whose identifier was not in
    the registry when the call was made. *)
Fixpoint nonDuplicateAdmissions (ops : list Op) (w : World) : nat :=
  match ops with
  | [] => 0%nat
  | op :: rest =>
      (match op with
       | OpAddNewTask mr s _ _ _ =>
           match batchesIdxByIdentifierHash (agg w)
                   !! batchIdentifierHashOf mr s with
           | Some _ => 0%nat
           | None => 1%nat
           end
       | _ => 0%nat
       end
       +
       match step op w with
       | Returned _ w' => nonDuplicateAdmissions rest w'
       | _ => 0%nat
       end)%nat
  end.

(** Operations other than a round of the garbage collector. *)
Definition notGcRound (op : Op) : Prop :=
  match op with OpGcRound _ _ => False | _ => True end.

(** The indices in use are exactly those below the counter. *)
Definition denseBelowNext (a : Aggregator) : Prop :=
  forall i, is_Some (batchesIdentifierHashByIdx a !! i) <->
            0 <= i < nextBatchIndex a.

(** Every stored payload is kept under the digest of its own fields. *)
Definition keyedByDigest (a : Aggregator) : Prop :=
  forall h d, batchDataByIdentifierHash a !! h = Some d ->
    h = batchIdentifierHashOf (BatchMerkleRoot d) (SenderAddress d).

(** Every index in use other than [0] is above the collector's watermark. *)
Definition aboveWatermark (w : World) : Prop :=
  forall i, is_Some (batchesIdentifierHashByIdx (agg w) !! i) ->
    i = 0 \/ lastIdxDeleted w < i.

(** The watermark is [0] or the index of a task admitted earlier. *)
Definition watermarkBelowNext (w : World) : Prop :=
  lastIdxDeleted w = 0 \/ lastIdxDeleted w < nextBatchIndex (agg w).

Definition isFinishTrace (e : Event) : bool :=
  match e with FinishTrace _ => true | _ => false end.

Definition isMutexEvent (e : Event) : bool :=
  match e with Lock _ | Unlock _ _ => true | _ => false end.

Definition isUnlock (e : Event) : bool :=
  match e with Unlock _ _ => true | _ => false end.

Definition isMetric (e : Event) : bool :=
  match e with
  | ObserveTaskQuorumReached _ | ObserveLatencyForRespondToTask _
  | IncAggregatedResponses | IncAggregatorReceivedTasks => true
  | _ => false
  end.

(** The two log lines of the deletion loop. *)
Definition isCleanedLog (e : Event) : bool :=
  match e with
  | Log Info msg => String.eqb msg "Cleaning up finalized task"
  | _ => false
  end.

Definition isNotFoundLog (e : Event) : bool :=
  match e with
  | Log Warn msg => String.eqb msg "Task not found in maps"
  | _ => false
  end.

(** The chain named no task: an error, or no hash. *)
Definition namesNoTask (oldTask : option (list byte) * option string) : Prop :=
  forall h, oldTask <> (Some h, None).

End Vocabulary.

(** ** A stand-in for the collaborators

    To run the model on concrete inputs: curve points are pairs of integers,
    the conversions keep them, and the digest is the first 32 bytes of the
    input, padded with zeros.  It is not Keccak-256; the properties below
    hold for every digest function. *)

Definition padDigest (bs : list byte) : list byte :=
  take 32 (bs ++ zeroBytes 32).

Lemma padDigest_length bs : length (padDigest bs) = 32%nat.
Proof.
  unfold padDigest, zeroBytes.
  rewrite length_take, length_app, repeat_length. lia.
Qed.

Definition testCollaborators : Collaborators :=
  {| G1Point := Z * Z;
     G2Point := (Z * Z) * (Z * Z);
     BN254G1Point := Z * Z;
     BN254G2Point := (Z * Z) * (Z * Z);
     ConvertToBN254G1Point := fun p => p;
     ConvertToBN254G2Point := fun p => p;
     Keccak256 := padDigest;
     Keccak256_length := padDigest_length;
     HashString := fun _ => "0xhash"%string;
     BigIntString := fun _ => "1000000000"%string |}.

(** The 32 bits of [k], one byte per bit, lowest bit first. *)
Definition bitsDigest (k : Z) : list byte :=
  map (fun i : nat => if Z.testbit k (Z.of_nat i) then x01 else x00)
    (seq 0 32).

(** The batch number [k]: its merkle root spells [k]. *)
Definition numberedBatch (k : Z) : NewBatch :=
  {| nbMerkleRoot := bitsDigest k; nbSender := zeroBytes 20;
     nbCreatedBlock := 100; nbNow := 1700000000 + k |}.

(** The batches number [0] to [n - 1]. *)
Definition numberedBatches (n : Z) : list NewBatch :=
  map numberedBatch (seqZ 0 n).

(** A BLS response for the task [i], with or without an error. *)
Definition testResponse (i : Z) (err : option string)
    : @BlsAggregationServiceResponse testCollaborators :=
  @Build_BlsAggregationServiceResponse testCollaborators
    err i [(1, 2)] [(3, 4)] ((5, 6), (7, 8)) (9, 10) [0] [0] [0] [[0]].

(** The chain answers: the block arrives, the transaction is sent, and the
    receipt is [receipt]. *)
Definition testReplies (receipt : option Receipt) : Replies :=
  {| sinceCreated := fun createdAt => 1700000060 - createdAt;
     waitErr := None;
     written := (receipt, None);
     sinceStart := 12 |}.

(** The world a run from [initWorld] returns ([initWorld] when it does not
    return). *)
Definition worldAfter (ops : list (@Op testCollaborators))
    : @World testCollaborators :=
  match run ops initWorld with
  | Returned _ w => w
  | _ => initWorld
  end.

(** A sample run: the batches 1, 2 and 3 are admitted at the indices 0, 1
    and 2, then the garbage collector is told the hash of batch 2. *)
Definition sampleRun : list (@Op testCollaborators) :=
  [admission (numberedBatch 1); admission (numberedBatch 2); admission (numberedBatch 3);
   OpGcRound 5 (Some (bitsDigest 2), None)].

Definition sampleWorld : @World testCollaborators :=
  Eval vm_compute in worldAfter sampleRun.

(** The chain answers, with a transaction that fails after all gas bumps. *)
Definition testRepliesFailing : Replies :=
  {| sinceCreated := fun createdAt => 1700000060 - createdAt;
     waitErr := Some "no new block"%string;
     written := (None, Some "transaction reverted"%string);
     sinceStart := 12 |}.

(** The sample world while another handler holds the wallet mutex. *)
Definition sampleWorldSending : @World testCollaborators :=
  {| agg := agg sampleWorld; taskMutex := false; walletMutex := true;
     lastIdxDeleted := lastIdxDeleted sampleWorld;
     trace := trace sampleWorld |}.

(** * Properties *)

Section Proofs.

Context `{C : Collaborators}.

Ltac run_m :=
  cbv [mbind M_bind mret M_ret emit lock unlock getAgg modifyAgg
       getLastIdxDeleted setLastIdxDeleted held setHeld fatalf
       agg taskMutex walletMutex lastIdxDeleted trace logged withAgg].

Tactic Notation "run_m" "in" hyp(H) :=
  cbv [mbind M_bind mret M_ret emit lock unlock getAgg modifyAgg
       getLastIdxDeleted setLastIdxDeleted held setHeld fatalf
       agg taskMutex walletMutex lastIdxDeleted trace logged withAgg] in H.

Ltac released :=
  repeat (apply Forall_cons_2; [simpl; solve [auto] |]); auto.

Ltac prefix_upto tr l :=
  lazymatch l with
  | tr => constr:(@nil Event)
  | ?e :: ?l' => let p := prefix_upto tr l' in constr:(e :: p)
  end.

(** Splits the trace [e1 :: ... :: en :: tr] of the goal into the new events
    and the old trace [tr]. *)
Ltac new_events tr :=
  lazymatch goal with
  | |- exists w' evs, Returned tt ?W = Returned tt w' /\ _ =>
      let l := eval cbv [trace] in (trace W) in
      let p := prefix_upto tr l in exists W, p
  end.

(** Membership of an event in an explicit list of events. *)
Ltac in_events :=
  rewrite list_elem_of_In; cbn; repeat ((left; reflexivity) || right).

Ltac not_in_events :=
  let H := fresh in
  intros H; rewrite list_elem_of_In in H; cbn in H; intuition congruence.

Ltac open_world w :=
  let a := fresh "a" in let tm := fresh "tm" in let wm := fresh "wm" in
  let lid := fresh "lid" in let tr := fresh "tr" in
  destruct w as [a tm wm lid tr]; simpl in *; subst.

(** ** Machine integers *)

Lemma uint32_range z : 0 <= uint32 z < 2 ^ 32.
Proof. unfold uint32. apply Z.mod_pos_bound. lia. Qed.

Lemma uint32_small z : 0 <= z < 2 ^ 32 -> uint32 z = z.
Proof. intros. unfold uint32. apply Z.mod_small. lia. Qed.

Lemma uint32_wraps : uint32 (maxUint32 + 1) = 0.
Proof. reflexivity. Qed.

(** ** The registry invariant is kept by an insertion and by a deletion *)

Lemma NewAggregator_inv : RegistryInv NewAggregator.
Proof.
  split; simpl.
  - intros h i. simpl. rewrite !lookup_empty. split; congruence.
  - intros h. rewrite !lookup_empty. split; intros []; congruence.
  - intros i. rewrite !lookup_empty. split; intros []; congruence.
  - intros i. rewrite !lookup_empty. split; intros []; congruence.
  - apply uint32_range.
  - intros i. rewrite lookup_empty. intros []; congruence.
Qed.

Lemma insertTask_inv h d blk now a :
  RegistryInv a ->
  batchesIdxByIdentifierHash a !! h = None ->
  batchesIdentifierHashByIdx a !! nextBatchIndex a = None ->
  RegistryInv (insertTask h d blk now a).
Proof.
  intros [Hinv Hd Hb Ht Hn Hk] Hh Hi.
  split; simpl.
  - intros h' i'. simpl. rewrite !lookup_insert.
    repeat case_decide; subst;
      first [ apply Hinv
            | split; intros E; try congruence; apply Hinv in E; congruence ].
  - intros h'. rewrite !lookup_insert. case_decide; [split; eauto | apply Hd].
  - intros i'. rewrite !lookup_insert. case_decide; [split; eauto | apply Hb].
  - intros i'. rewrite !lookup_insert. case_decide; [split; eauto | apply Ht].
  - apply uint32_range.
  - intros i'. rewrite lookup_insert. case_decide; subst; auto.
Qed.

Lemma deleteEntries_inv i h a :
  RegistryInv a ->
  batchesIdentifierHashByIdx a !! i = Some h ->
  RegistryInv (deleteEntries i h a).
Proof.
  intros [Hinv Hd Hb Ht Hn Hk] Hi.
  assert (Hh : batchesIdxByIdentifierHash a !! h = Some i) by (by apply Hinv).
  split; simpl; auto.
  - intros h' i'. simpl. rewrite !lookup_delete.
    repeat case_decide; subst;
      first [ apply Hinv
            | split; intros E; try congruence; apply Hinv in E; congruence ].
  - intros h'. rewrite !lookup_delete.
    case_decide; [split; intros []; congruence | apply Hd].
  - intros i'. rewrite !lookup_delete.
    case_decide; [split; intros []; congruence | apply Hb].
  - intros i'. rewrite !lookup_delete.
    case_decide; [split; intros []; congruence | apply Ht].
  - intros i'. rewrite lookup_delete. case_decide; subst; eauto.
Qed.

(** ** [AddNewTask], one lemma per path *)

Lemma AddNewTask_duplicate mr s blk now be w j :
  taskMutex w = false ->
  batchesIdxByIdentifierHash (agg w) !! batchIdentifierHashOf mr s = Some j ->
  AddNewTask mr s blk now be w =
  Returned tt
    (logged [Log Info "- Unlocked Resources: Adding new task";
             Unlock TaskMutex (agg w);
             Log Warn "Batch already exists";
             Log Info "- Locked Resources: Adding new task";
             Lock TaskMutex;
             Log Info "Adding new task";
             InitNewTrace mr] w).
Proof.
  intros Hm Hj. open_world w. unfold AddNewTask. run_m.
  rewrite Hj. reflexivity.
Qed.

Lemma AddNewTask_slot_taken mr s blk now be w h' :
  taskMutex w = false ->
  batchesIdxByIdentifierHash (agg w) !! batchIdentifierHashOf mr s = None ->
  batchesIdentifierHashByIdx (agg w) !! nextBatchIndex (agg w) = Some h' ->
  AddNewTask mr s blk now be w =
  Returned tt
    (logged [Log Info "- Unlocked Resources: Adding new task";
             Unlock TaskMutex (agg w);
             Log Warn "Batch already exists";
             Log Info "- Locked Resources: Adding new task";
             Lock TaskMutex;
             Log Info "Adding new task";
             InitNewTrace mr] w).
Proof.
  intros Hm Hh Hi. open_world w. unfold AddNewTask. run_m.
  rewrite Hh, Hi. reflexivity.
Qed.

Lemma AddNewTask_inserted mr s blk now w :
  taskMutex w = false ->
  batchesIdxByIdentifierHash (agg w) !! batchIdentifierHashOf mr s = None ->
  batchesIdentifierHashByIdx (agg w) !! nextBatchIndex (agg w) = None ->
  let a' := insertTask (batchIdentifierHashOf mr s)
              {| BatchMerkleRoot := mr; SenderAddress := s |} blk now (agg w) in
  AddNewTask mr s blk now None w =
  Returned tt
    (logged [Log Info "New task added";
             Log Info "- Unlocked Resources: Adding new task";
             Unlock TaskMutex a';
             IncAggregatorReceivedTasks;
             InitializeNewTaskWithWindow (nextBatchIndex (agg w)) blk
               [QUORUM_NUMBER] [QUORUM_THRESHOLD];
             Log Info "Task Info added in aggregator:";
             Log Info "- Locked Resources: Adding new task";
             Lock TaskMutex;
             Log Info "Adding new task";
             InitNewTrace mr] (withAgg a' w)).
Proof.
  intros Hm Hh Hi. open_world w. unfold AddNewTask. run_m.
  rewrite Hh, Hi. reflexivity.
Qed.

(** When the BLS service refuses the task the process exits: the entries are
    in the maps and the mutex is still held. *)
Lemma AddNewTask_fatal mr s blk now e w :
  taskMutex w = false ->
  batchesIdxByIdentifierHash (agg w) !! batchIdentifierHashOf mr s = None ->
  batchesIdentifierHashByIdx (agg w) !! nextBatchIndex (agg w) = None ->
  exists w', AddNewTask mr s blk now (Some e) w = Exited w' /\
             taskMutex w' = true.
Proof.
  intros Hm Hh Hi. open_world w. unfold AddNewTask. run_m.
  rewrite Hh, Hi. eexists. split; reflexivity.
Qed.

(** A call that returns either left the registry alone or inserted the task. *)
Lemma AddNewTask_returned mr s blk now be w w' :
  taskMutex w = false ->
  AddNewTask mr s blk now be w = Returned tt w' ->
  (w' = logged [Log Info "- Unlocked Resources: Adding new task";
                Unlock TaskMutex (agg w);
                Log Warn "Batch already exists";
                Log Info "- Locked Resources: Adding new task";
                Lock TaskMutex;
                Log Info "Adding new task";
                InitNewTrace mr] w /\
   (is_Some (batchesIdxByIdentifierHash (agg w) !! batchIdentifierHashOf mr s)
    \/ is_Some (batchesIdentifierHashByIdx (agg w) !! nextBatchIndex (agg w))))
  \/
  (batchesIdxByIdentifierHash (agg w) !! batchIdentifierHashOf mr s = None /\
   batchesIdentifierHashByIdx (agg w) !! nextBatchIndex (agg w) = None /\
   be = None /\
   let a' := insertTask (batchIdentifierHashOf mr s)
               {| BatchMerkleRoot := mr; SenderAddress := s |} blk now (agg w) in
   w' = logged [Log Info "New task added";
                Log Info "- Unlocked Resources: Adding new task";
                Unlock TaskMutex a';
                IncAggregatorReceivedTasks;
                InitializeNewTaskWithWindow (nextBatchIndex (agg w)) blk
                  [QUORUM_NUMBER] [QUORUM_THRESHOLD];
                Log Info "Task Info added in aggregator:";
                Log Info "- Locked Resources: Adding new task";
                Lock TaskMutex;
                Log Info "Adding new task";
                InitNewTrace mr] (withAgg a' w)).
Proof.
  intros Hm Hr.
  destruct (batchesIdxByIdentifierHash (agg w) !! batchIdentifierHashOf mr s)
    as [j|] eqn:Hh.
  { rewrite (AddNewTask_duplicate _ _ _ _ _ _ j Hm Hh) in Hr.
    inversion Hr. left. split; [reflexivity | left; eauto]. }
  destruct (batchesIdentifierHashByIdx (agg w) !! nextBatchIndex (agg w))
    as [h'|] eqn:Hi.
  { rewrite (AddNewTask_slot_taken _ _ _ _ _ _ h' Hm Hh Hi) in Hr.
    inversion Hr. left. split; [reflexivity | right; eauto]. }
  destruct be as [e|].
  { destruct (AddNewTask_fatal mr s blk now e w Hm Hh Hi) as (w0 & Hx & _).
    congruence. }
  rewrite (AddNewTask_inserted _ _ _ _ _ Hm Hh Hi) in Hr.
  inversion Hr. right. auto.
Qed.

(** ** The deletion loop *)

Lemma clearedRange_empty lo hi a :
  RegistryInv a -> hi < lo -> clearedRange lo hi a a.
Proof.
  intros Ha Hlt. split; intros; try (case_decide; [lia | reflexivity]); auto.
  - destruct (batchesIdxByIdentifierHash a !! h) eqn:E; auto.
    case_decide; [lia | reflexivity].
  - destruct (batchesIdxByIdentifierHash a !! h) eqn:E.
    + case_decide; [lia | reflexivity].
    + destruct (batchDataByIdentifierHash a !! h) eqn:E'; auto.
      assert (Hs : is_Some (batchesIdxByIdentifierHash a !! h))
        by (apply (inv_data a Ha); eauto).
      destruct Hs; congruence.
Qed.

Lemma clearedRange_absent lo hi a a' :
  RegistryInv a ->
  batchesIdentifierHashByIdx a !! lo = None ->
  batchCreatedBlockByIdx a !! lo = None ->
  batchStartTimeByIdx a !! lo = None ->
  clearedRange (lo + 1) hi a a' ->
  clearedRange lo hi a a'.
Proof.
  intros Ha Hh Hb Ht [H1 H2 H3 H4 H5 H6].
  split; auto.
  - intros j. rewrite H1. repeat case_decide; try lia; auto.
    assert (j = lo) by lia. subst. auto.
  - intros j. rewrite H2. repeat case_decide; try lia; auto.
    assert (j = lo) by lia. subst. auto.
  - intros j. rewrite H3. repeat case_decide; try lia; auto.
    assert (j = lo) by lia. subst. auto.
  - intros h. rewrite H4.
    destruct (batchesIdxByIdentifierHash a !! h) as [j|] eqn:E; auto.
    repeat case_decide; try lia; auto.
    assert (j = lo) by lia. subst. apply (inv_inverse a Ha) in E. congruence.
  - intros h. rewrite H5.
    destruct (batchesIdxByIdentifierHash a !! h) as [j|] eqn:E; auto.
    repeat case_decide; try lia; auto.
    assert (j = lo) by lia. subst. apply (inv_inverse a Ha) in E. congruence.
Qed.

Lemma clearedRange_present lo hi h a a' :
  RegistryInv a ->
  lo <= hi ->
  batchesIdentifierHashByIdx a !! lo = Some h ->
  clearedRange (lo + 1) hi (deleteEntries lo h a) a' ->
  clearedRange lo hi a a'.
Proof.
  intros Ha Hle Hh [H1 H2 H3 H4 H5 H6]. simpl in *.
  assert (Hidx : batchesIdxByIdentifierHash a !! h = Some lo)
    by (by apply (inv_inverse a Ha)).
  split; auto.
  - intros j. rewrite H1, lookup_delete.
    repeat case_decide; subst; try lia; auto.
  - intros j. rewrite H2, lookup_delete.
    repeat case_decide; subst; try lia; auto.
  - intros j. rewrite H3, lookup_delete.
    repeat case_decide; subst; try lia; auto.
  - intros h'. rewrite H4, lookup_delete.
    case_decide; subst.
    + rewrite Hidx. case_decide; [reflexivity | lia].
    + destruct (batchesIdxByIdentifierHash a !! h') as [j|] eqn:E; auto.
      repeat case_decide; try lia; auto.
      assert (j = lo) by lia. subst.
      apply (inv_inverse a Ha) in E. congruence.
  - intros h'. rewrite H5, !lookup_delete.
    case_decide; subst.
    + rewrite Hidx. case_decide; [reflexivity | lia].
    + destruct (batchesIdxByIdentifierHash a !! h') as [j|] eqn:E; auto.
      repeat case_decide; try lia; auto.
      assert (j = lo) by lia. subst.
      apply (inv_inverse a Ha) in E. congruence.
Qed.

(** The loop body returns; it deletes the five entries of a live index and
    leaves the registry alone otherwise. *)
Lemma clearTask_returned i w :
  clearTask i w =
  Returned tt
    match batchesIdentifierHashByIdx (agg w) !! i with
    | Some h => withAgg (deleteEntries i h (agg w))
                  (logged [Log Info "Cleaning up finalized task"] w)
    | None => logged [Log Warn "Task not found in maps"] w
    end.
Proof.
  open_world w. unfold clearTask. run_m.
  destruct (batchesIdentifierHashByIdx a !! i); reflexivity.
Qed.

Lemma clearLoop_step fuel lo hi w :
  lo <= hi ->
  clearLoop (S fuel) lo hi w =
  match clearTask lo w with
  | Returned _ w1 => clearLoop fuel (uint32 (lo + 1)) hi w1
  | Exited w1 => Exited w1
  | Blocked w1 => Blocked w1
  | OutOfFuel => OutOfFuel
  end.
Proof.
  intros Hle. simpl. case_decide; [reflexivity | lia].
Qed.

Lemma clearLoop_done fuel lo hi w :
  hi < lo -> clearLoop (S fuel) lo hi w = Returned tt w.
Proof.
  intros Hlt. simpl. case_decide; [lia | reflexivity].
Qed.

(** What a loop that returns has done. *)
Lemma clearLoop_spec fuel : forall lo hi w w',
  RegistryInv (agg w) ->
  0 <= lo -> hi < 2 ^ 32 - 1 ->
  clearLoop fuel lo hi w = Returned tt w' ->
  clearedRange lo hi (agg w) (agg w') /\
  RegistryInv (agg w') /\
  taskMutex w' = taskMutex w /\
  walletMutex w' = walletMutex w /\
  lastIdxDeleted w' = lastIdxDeleted w /\
  (Forall releasedOk (trace w) -> Forall releasedOk (trace w')).
Proof.
  induction fuel as [|fuel IH]; intros lo hi w w' Ha Hlo Hhi Hr.
  { discriminate. }
  destruct (decide (lo <= hi)) as [Hle|Hgt].
  - rewrite clearLoop_step in Hr by assumption.
    rewrite clearTask_returned in Hr.
    rewrite uint32_small in Hr by lia.
    destruct (batchesIdentifierHashByIdx (agg w) !! lo) as [h|] eqn:Hh.
    + apply IH in Hr; [| simpl; by apply deleteEntries_inv | lia | lia].
      destruct Hr as (Hc & Hi & Ht & Hw & Hl & Htr). simpl in *.
      split_and!; auto.
      * eapply clearedRange_present; eauto.
      * intros Hf. apply Htr. released.
    + apply IH in Hr; [| simpl; assumption | lia | lia].
      destruct Hr as (Hc & Hi & Ht & Hw & Hl & Htr). simpl in *.
      split_and!; auto.
      * apply clearedRange_absent; auto.
        -- destruct (batchCreatedBlockByIdx (agg w) !! lo) eqn:E; auto.
           assert (Hs : is_Some (batchesIdentifierHashByIdx (agg w) !! lo))
             by (apply (inv_block _ Ha); eauto).
           destruct Hs; congruence.
        -- destruct (batchStartTimeByIdx (agg w) !! lo) eqn:E; auto.
           assert (Hs : is_Some (batchesIdentifierHashByIdx (agg w) !! lo))
             by (apply (inv_time _ Ha); eauto).
           destruct Hs; congruence.
      * intros Hf. apply Htr. released.
  - rewrite clearLoop_done in Hr by lia. inversion Hr; subst.
    split_and!; auto. apply clearedRange_empty; [assumption | lia].
Qed.

(** With enough fuel the loop returns, as long as the bound is not the
    largest [uint32]. *)
Lemma clearLoop_terminates hi : forall (n : nat) lo fuel w,
  0 <= lo -> hi < 2 ^ 32 - 1 ->
  (Z.to_nat (hi + 1 - lo) <= n)%nat -> (n < fuel)%nat ->
  exists w', clearLoop fuel lo hi w = Returned tt w'.
Proof.
  induction n as [|n IH]; intros lo fuel w Hlo Hhi Hn Hf.
  - destruct fuel as [|fuel]; [lia|].
    rewrite clearLoop_done by lia. eauto.
  - destruct fuel as [|fuel]; [lia|].
    destruct (decide (lo <= hi)) as [Hle|Hgt].
    + rewrite clearLoop_step by assumption.
      rewrite clearTask_returned.
      rewrite uint32_small by lia.
      apply IH; lia.
    + rewrite clearLoop_done by lia. eauto.
Qed.

(** At the largest [uint32] the loop condition [i <= taskIdxToDelete] never
    fails: the loop does not return, whatever the fuel. *)
Lemma clearLoop_diverges fuel : forall lo w,
  0 <= lo < 2 ^ 32 ->
  clearLoop fuel lo maxUint32 w = OutOfFuel.
Proof.
  induction fuel as [|fuel IH]; intros lo w Hlo; [reflexivity|].
  rewrite clearLoop_step by (unfold maxUint32; lia).
  rewrite clearTask_returned. apply IH. apply uint32_range.
Qed.

(** ** One round of the garbage collector *)

Lemma readOr_idx_range a h :
  RegistryInv a -> 0 <= readOr 0 (batchesIdxByIdentifierHash a) h < 2 ^ 32.
Proof.
  intros Ha. unfold readOr.
  destruct (batchesIdxByIdentifierHash a !! h) as [j|] eqn:E; [|lia].
  apply (inv_keys a Ha). apply (inv_inverse a Ha) in E. eauto.
Qed.

Lemma round_error fuel oldTaskIdHash e w :
  ClearTasksFromMaps_round fuel (oldTaskIdHash, Some e) w =
  Returned tt
    (logged [Log Error "Error getting old task hash, skipping this garbage collect";
             Log Info "Cleaning finalized tasks from maps"] w).
Proof. open_world w. reflexivity. Qed.

Lemma round_nothing fuel w :
  ClearTasksFromMaps_round fuel (None, None) w =
  Returned tt
    (logged [Log Warn "No old tasks found";
             Log Info "Cleaning finalized tasks from maps"] w).
Proof. open_world w. reflexivity. Qed.

(** A round that found an old task and returned has cleared the indices
    [lastIdxDeleted + 1 .. taskIdxToDelete] and moved the watermark. *)
Lemma round_returned fuel h w w' :
  WorldInv w ->
  ClearTasksFromMaps_round fuel (Some h, None) w = Returned tt w' ->
  let taskIdxToDelete := readOr 0 (batchesIdxByIdentifierHash (agg w)) h in
  taskIdxToDelete < 2 ^ 32 - 1 /\
  clearedRange (lastIdxDeleted w + 1) taskIdxToDelete (agg w) (agg w') /\
  lastIdxDeleted w' = taskIdxToDelete /\
  WorldInv w'.
Proof.
  intros [Ha Ht Hw Hl Htr] Hr. cbv zeta.
  pose proof (readOr_idx_range (agg w) h Ha) as Hrange.
  open_world w. unfold ClearTasksFromMaps_round in Hr. run_m in Hr.
  rewrite uint32_small in Hr by lia.
  set (hi := readOr 0 (batchesIdxByIdentifierHash a) h) in *.
  match type of Hr with
  | context [clearLoop fuel (lid + 1) hi ?w0] =>
      destruct (clearLoop fuel (lid + 1) hi w0) as [[] w1| | |] eqn:E;
        try discriminate
  end.
  destruct w1 as [a1 tm1 wm1 lid1 tr1].
  assert (Hhi : hi < 2 ^ 32 - 1).
  { destruct (decide (hi = maxUint32)) as [Heq|Hne].
    - rewrite Heq, clearLoop_diverges in E by lia. discriminate.
    - unfold maxUint32 in Hne. lia. }
  apply clearLoop_spec in E; [| assumption | lia | assumption].
  destruct E as (Hc & Hi & Htm & Hwm & Hlast & Hrel). simpl in *.
  inversion Hr; subst; clear Hr. simpl.
  split_and!; auto; try lia.
  split; simpl; auto; try lia.
  released. apply Hrel. released.
Qed.

(** With enough fuel a round returns unless the task found is the one of
    index [2^32 - 1]. *)
Lemma round_terminates fuel h w :
  WorldInv w ->
  let taskIdxToDelete := readOr 0 (batchesIdxByIdentifierHash (agg w)) h in
  taskIdxToDelete < 2 ^ 32 - 1 ->
  (Z.to_nat (taskIdxToDelete - lastIdxDeleted w) < fuel)%nat ->
  exists w', ClearTasksFromMaps_round fuel (Some h, None) w = Returned tt w'.
Proof.
  intros [Ha Ht Hw Hl Htr]. cbv zeta. intros Hhi Hf.
  open_world w. unfold ClearTasksFromMaps_round. run_m.
  rewrite uint32_small by lia.
  set (hi := readOr 0 (batchesIdxByIdentifierHash a) h) in *.
  match goal with
  | |- context [clearLoop fuel (lid + 1) hi ?w0] =>
      destruct (clearLoop_terminates hi (Z.to_nat (hi - lid)) (lid + 1)
                  fuel w0) as [w1 E]; [lia | assumption | lia | assumption |]
  end.
  rewrite E. eauto.
Qed.


(** ** The handler leaves the registry alone *)

Lemma handle_returned resp r w :
  taskMutex w = false -> walletMutex w = false ->
  exists w', handleBlsAggServiceResponse resp r w = Returned tt w' /\
             agg w' = agg w /\ taskMutex w' = false /\
             walletMutex w' = false /\
             lastIdxDeleted w' = lastIdxDeleted w /\
             (RegistryInv (agg w) -> Forall releasedOk (trace w) ->
              Forall releasedOk (trace w')).
Proof.
  intros Ht Hw. open_world w.
  unfold handleBlsAggServiceResponse, sendAggregatedResponse. run_m.
  destruct (respErr resp), (waitErr r), (written r) as [[rc|] [e|]];
    run_m; (eexists; split_and!; [reflexivity ..|]);
    intros Ha Hf; released.
Qed.

(** ** Every reachable world satisfies the invariant *)

Lemma initWorld_inv : WorldInv initWorld.
Proof.
  split; simpl; auto.
  - apply NewAggregator_inv.
  - change (uint32 0) with 0. lia.
Qed.

Lemma AddNewTask_inv mr s blk now be w w' :
  WorldInv w ->
  AddNewTask mr s blk now be w = Returned tt w' ->
  WorldInv w'.
Proof.
  intros [Ha Ht Hw Hl Htr] Hr.
  apply AddNewTask_returned in Hr; [|assumption].
  destruct Hr as [[-> _] | (Hh & Hi & _ & Hr)]; [| cbv zeta in Hr; subst w'].
  - split; simpl; auto. released.
  - pose proof (insertTask_inv _ {| BatchMerkleRoot := mr; SenderAddress := s |}
                  blk now _ Ha Hh Hi) as Ha'.
    split; auto. simpl. released.
Qed.

Lemma step_inv op w w' :
  WorldInv w -> step op w = Returned tt w' -> WorldInv w'.
Proof.
  intros Hw Hr. destruct op as [mr s blk now be | resp r | fuel [[h|] [e|]]];
    simpl in Hr.
  - eapply AddNewTask_inv; eauto.
  - destruct Hw as [Ha Ht Hwm Hl Htr].
    destruct (handle_returned resp r w Ht Hwm)
      as (w0 & E & Hagg & Ht' & Hw' & Hl' & Hrel).
    rewrite E in Hr. inversion Hr; subst.
    split; auto; try congruence.
  - rewrite round_error in Hr. inversion Hr; subst.
    destruct Hw. split; simpl; auto. released.
  - by apply round_returned in Hr as (_ & _ & _ & ?).
  - rewrite round_error in Hr. inversion Hr; subst.
    destruct Hw. split; simpl; auto. released.
  - rewrite round_nothing in Hr. inversion Hr; subst.
    destruct Hw. split; simpl; auto. released.
Qed.

Lemma run_cons op ops w :
  run (op :: ops) w =
  match step op w with
  | Returned _ w1 => run ops w1
  | Exited w1 => Exited w1
  | Blocked w1 => Blocked w1
  | OutOfFuel => OutOfFuel
  end.
Proof. reflexivity. Qed.

Lemma run_inv ops : forall w w',
  WorldInv w -> run ops w = Returned tt w' -> WorldInv w'.
Proof.
  induction ops as [|op ops IH]; intros w w' Hw Hr.
  - inversion Hr; subst; assumption.
  - rewrite run_cons in Hr.
    destruct (step op w) as [[] w1| | |] eqn:E; try discriminate.
    eapply IH; [|eassumption]. eapply step_inv; eauto.
Qed.

Lemma run_app ops1 : forall ops2 w,
  run (ops1 ++ ops2) w =
  match run ops1 w with
  | Returned _ w1 => run ops2 w1
  | Exited w1 => Exited w1
  | Blocked w1 => Blocked w1
  | OutOfFuel => OutOfFuel
  end.
Proof.
  induction ops1 as [|op ops1 IH]; intros ops2 w; [reflexivity|].
  simpl app. rewrite !run_cons.
  destruct (step op w) as [[] w1| | |]; auto.
Qed.

Lemma reachable_inv w : reachable w -> WorldInv w.
Proof.
  intros [ops Hr]. eapply run_inv; [apply initWorld_inv | exact Hr].
Qed.

(** ** Admitting fresh batches one after the other *)

Lemma AddNewTask_admission b w :
  WorldInv w ->
  batchesIdxByIdentifierHash (agg w) !! identifierOf b = None ->
  batchesIdentifierHashByIdx (agg w) !! nextBatchIndex (agg w) = None ->
  step (admission b) w =
  Returned tt
    (logged [Log Info "New task added";
             Log Info "- Unlocked Resources: Adding new task";
             Unlock TaskMutex
               (insertTask (identifierOf b)
                  {| BatchMerkleRoot := nbMerkleRoot b;
                     SenderAddress := nbSender b |}
                  (nbCreatedBlock b) (nbNow b) (agg w));
             IncAggregatorReceivedTasks;
             InitializeNewTaskWithWindow (nextBatchIndex (agg w))
               (nbCreatedBlock b) [QUORUM_NUMBER] [QUORUM_THRESHOLD];
             Log Info "Task Info added in aggregator:";
             Log Info "- Locked Resources: Adding new task";
             Lock TaskMutex;
             Log Info "Adding new task";
             InitNewTrace (nbMerkleRoot b)]
       (withAgg
          (insertTask (identifierOf b)
             {| BatchMerkleRoot := nbMerkleRoot b;
                SenderAddress := nbSender b |}
             (nbCreatedBlock b) (nbNow b) (agg w)) w)).
Proof.
  intros Hw Hh Hi. simpl.
  apply AddNewTask_inserted; auto. apply (winv_task w Hw).
Qed.

Lemma holds_insertTask a b :
  holds (insertTask (identifierOf b)
           {| BatchMerkleRoot := nbMerkleRoot b; SenderAddress := nbSender b |}
           (nbCreatedBlock b) (nbNow b) a) (nextBatchIndex a) b.
Proof.
  unfold holds; simpl. rewrite !lookup_insert_eq. auto.
Qed.

Lemma holds_insertTask_other a i b h d blk now :
  holds a i b ->
  batchesIdxByIdentifierHash a !! h = None ->
  batchesIdentifierHashByIdx a !! nextBatchIndex a = None ->
  holds (insertTask h d blk now a) i b.
Proof.
  intros (H1 & H2 & H3 & H4 & H5) Hh Hi.
  assert (i <> nextBatchIndex a) by congruence.
  assert (identifierOf b <> h) by congruence.
  unfold holds; simpl. rewrite !lookup_insert_ne by auto. auto.
Qed.

Lemma nonDuplicateAdmissions_admission b ops w w1 :
  batchesIdxByIdentifierHash (agg w) !! identifierOf b = None ->
  step (admission b) w = Returned tt w1 ->
  nonDuplicateAdmissions (admission b :: ops) w =
  S (nonDuplicateAdmissions ops w1).
Proof.
  intros Hh Hstep. cbn [nonDuplicateAdmissions].
  rewrite Hstep. unfold admission, identifierOf in *. rewrite Hh. reflexivity.
Qed.

Lemma run_fresh_admissions bs : forall w,
  WorldInv w ->
  belowNext (agg w) ->
  nextBatchIndex (agg w) + Z.of_nat (length bs) <= 2 ^ 32 ->
  NoDup (map identifierOf bs) ->
  (forall b, b ∈ bs ->
     batchesIdxByIdentifierHash (agg w) !! identifierOf b = None) ->
  exists w',
    run (map admission bs) w = Returned tt w' /\
    WorldInv w' /\
    nextBatchIndex (agg w') =
      uint32 (nextBatchIndex (agg w) + Z.of_nat (length bs)) /\
    nonDuplicateAdmissions (map admission bs) w = length bs /\
    lastIdxDeleted w' = lastIdxDeleted w /\
    (forall (k : nat) b, bs !! k = Some b ->
       holds (agg w') (nextBatchIndex (agg w) + Z.of_nat k) b) /\
    (forall i b, holds (agg w) i b -> holds (agg w') i b).
Proof.
  induction bs as [|b bs IH]; intros w Hw Hbelow Hlen Hnd Hfresh.
  { exists w. simpl. pose proof (inv_next _ (winv_registry w Hw)).
    rewrite Z.add_0_r, uint32_small by lia.
    split_and!; auto. intros k b Hk. rewrite lookup_nil in Hk. discriminate. }
  change (length (b :: bs)) with (S (length bs)) in *.
  change (map identifierOf (b :: bs))
    with (identifierOf b :: map identifierOf bs) in Hnd.
  apply NoDup_cons in Hnd as [Hnotin Hnd].
  assert (Hh : batchesIdxByIdentifierHash (agg w) !! identifierOf b = None)
    by (apply Hfresh; left).
  assert (Hi : batchesIdentifierHashByIdx (agg w) !! nextBatchIndex (agg w)
               = None).
  { destruct (batchesIdentifierHashByIdx (agg w) !! nextBatchIndex (agg w))
      eqn:E; auto.
    assert (nextBatchIndex (agg w) < nextBatchIndex (agg w))
      by (apply Hbelow; eauto). lia. }
  pose proof (AddNewTask_admission b w Hw Hh Hi) as Hstep.
  set (a1 := insertTask (identifierOf b)
               {| BatchMerkleRoot := nbMerkleRoot b;
                  SenderAddress := nbSender b |}
               (nbCreatedBlock b) (nbNow b) (agg w)) in *.
  match type of Hstep with _ = Returned tt ?x => set (w1 := x) in * end.
  assert (Hw1 : WorldInv w1) by (eapply step_inv; eauto).
  assert (Hagg1 : agg w1 = a1) by reflexivity.
  assert (Hnext1 : nextBatchIndex (agg w1)
                   = uint32 (nextBatchIndex (agg w) + 1)) by reflexivity.
  assert (Hlast1 : lastIdxDeleted w1 = lastIdxDeleted w) by reflexivity.
  pose proof (inv_next _ (winv_registry w Hw)) as Hrange.
  change (map admission (b :: bs)) with (admission b :: map admission bs).
  rewrite run_cons, (nonDuplicateAdmissions_admission b _ w w1 Hh Hstep), Hstep.
  clearbody w1.
  destruct (decide (length bs = 0%nat)) as [Hnil|Hcons].
  { apply nil_length_inv in Hnil. subst bs. exists w1. split_and!; auto.
    - intros [|k] b0 Hk; simpl in Hk; [|discriminate].
      inversion Hk; subst b0. rewrite Z.add_0_r, Hagg1. subst a1.
      apply holds_insertTask.
    - intros i b0 Hb0. rewrite Hagg1. subst a1.
      by apply holds_insertTask_other. }
  assert (Hlen' : nextBatchIndex (agg w) + 1 < 2 ^ 32) by lia.
  rewrite uint32_small in Hnext1 by lia.
  destruct (IH w1) as (w' & Hrun & Hw' & Hnext & Hcount & Hlast & Hnew & Hold);
    auto.
  { intros i Hsome. rewrite Hnext1. rewrite Hagg1 in Hsome. subst a1.
    simpl in Hsome.
    rewrite lookup_insert in Hsome. case_decide; [lia|].
    apply Hbelow in Hsome. lia. }
  { rewrite Hnext1. lia. }
  { intros b0 Hb0. rewrite Hagg1. subst a1. simpl. rewrite lookup_insert_ne.
    - apply Hfresh. by right.
    - intros Heq. apply Hnotin. rewrite Heq.
      apply list_elem_of_In, in_map, list_elem_of_In. assumption. }
  exists w'. split_and!; auto.
  - rewrite Hnext, Hnext1. f_equal. lia.
  - congruence.
  - intros [|k] b0 Hk; simpl in Hk.
    + inversion Hk; subst b0. rewrite Z.add_0_r. apply Hold.
      rewrite Hagg1. subst a1. apply holds_insertTask.
    + specialize (Hnew k b0 Hk). rewrite Hnext1 in Hnew.
      replace (nextBatchIndex (agg w) + Z.of_nat (S k))
        with (nextBatchIndex (agg w) + 1 + Z.of_nat k) by lia. exact Hnew.
  - intros i b0 Hb0. apply Hold. rewrite Hagg1. subst a1.
    by apply holds_insertTask_other.
Qed.

(** ** Consequences of a cleared range *)

Lemma clearedRange_none lo hi a a' i :
  clearedRange lo hi a a' -> lo <= i <= hi -> noneOfFive a' i.
Proof.
  intros [H1 H2 H3 H4 H5 H6] Hin. unfold noneOfFive.
  rewrite H1, H2, H3. rewrite !decide_True by assumption.
  split_and!; auto.
  - intros h. rewrite H4.
    destruct (batchesIdxByIdentifierHash a !! h) as [j|]; [|congruence].
    case_decide; [congruence|]. intros E. inversion E. lia.
  - intros h. rewrite H5, H4.
    destruct (batchesIdxByIdentifierHash a !! h) as [j|].
    + case_decide.
      * intros []; congruence.
      * intros _. exists j. split; [lia | reflexivity].
    + intros []; congruence.
Qed.

Lemma clearedRange_kept lo hi a a' i :
  clearedRange lo hi a a' -> RegistryInv a -> ~ (lo <= i <= hi) ->
  batchesIdentifierHashByIdx a' !! i = batchesIdentifierHashByIdx a !! i /\
  batchCreatedBlockByIdx a' !! i = batchCreatedBlockByIdx a !! i /\
  batchStartTimeByIdx a' !! i = batchStartTimeByIdx a !! i /\
  forall h, batchesIdentifierHashByIdx a !! i = Some h ->
    batchesIdxByIdentifierHash a' !! h = Some i /\
    batchDataByIdentifierHash a' !! h = batchDataByIdentifierHash a !! h.
Proof.
  intros [H1 H2 H3 H4 H5 H6] Ha Hout.
  rewrite H1, H2, H3. rewrite !decide_False by assumption.
  split_and!; auto.
  intros h Hh. apply (inv_inverse a Ha) in Hh.
  rewrite H4, H5, Hh. rewrite !decide_False by assumption. auto.
Qed.

Lemma clearedRange_same lo hi a a' :
  clearedRange lo hi a a' -> RegistryInv a -> hi < lo -> a' = a.
Proof.
  intros [H1 H2 H3 H4 H5 H6] Ha Hlt.
  destruct a, a'; simpl in *. f_equal; auto; apply map_eq; intros k.
  - rewrite H1. case_decide; [lia | reflexivity].
  - rewrite H4. destruct (_ !! k); auto. case_decide; [lia | reflexivity].
  - rewrite H2. case_decide; [lia | reflexivity].
  - rewrite H5.
    destruct (batchesIdxByIdentifierHash0 !! k) eqn:E.
    + case_decide; [lia | reflexivity].
    + destruct (batchDataByIdentifierHash0 !! k) eqn:E'; auto.
      assert (Hs : is_Some (batchesIdxByIdentifierHash0 !! k))
        by (apply (inv_data _ Ha); simpl; eauto).
      destruct Hs; congruence.
  - rewrite H3. case_decide; [lia | reflexivity].
Qed.


(** * The claims *)

(** C2. After every sequence of admissions ([AddNewTask]), handled BLS
    responses and completed rounds of the garbage collector, the two index
    maps are inverses of each other: [batchesIdxByIdentifierHash] maps [h] to
    [i] exactly when [batchesIdentifierHashByIdx] maps [i] to [h].  The same
    holds of every registry that a mutex release made visible on the way. *)
Theorem index_maps_mutual_inverses ops w :
  run ops initWorld = Returned tt w ->
  (forall h i,
     batchesIdxByIdentifierHash (agg w) !! h = Some i <->
     batchesIdentifierHashByIdx (agg w) !! i = Some h) /\
  (forall m a, Unlock m a ∈ trace w -> inverseMaps a).
Proof.
  intros Hr.
  assert (Hw : WorldInv w) by (apply reachable_inv; by exists ops).
  split.
  - apply (inv_inverse _ (winv_registry w Hw)).
  - intros m a Hin.
    pose proof (winv_released w Hw) as Hall.
    rewrite Forall_forall in Hall. specialize (Hall _ Hin).
    apply (inv_inverse a Hall).
Qed.

(** C6. A BLS response whose [Err] is not nil is handled by recording the
    task error and finishing the trace: the handler returns, the registry is
    as it was, and the events of the call, listed here in full, contain no
    [SendAggregatedResponse] and no new attempt. *)
Theorem bls_error_response_abandons resp r e w :
  taskMutex w = false ->
  respErr resp = Some e ->
  let batchIdentifierHash :=
    readOr (zeroBytes 32) (batchesIdentifierHashByIdx (agg w))
      (TaskIndex resp) in
  let batchData :=
    readOr zeroBatchData (batchDataByIdentifierHash (agg w))
      batchIdentifierHash in
  exists w' evs,
    handleBlsAggServiceResponse resp r w = Returned tt w' /\
    agg w' = agg w /\
    trace w' = evs ++ trace w /\
    evs = [FinishTrace (BatchMerkleRoot batchData);
           Log Error "BlsAggregationServiceResponse contains an error";
           LogTaskError (BatchMerkleRoot batchData) e;
           Log Info "- Unlocked Resources: Fetching task data";
           Unlock TaskMutex (agg w);
           Log Info "- Locked Resources: Fetching task data";
           Lock TaskMutex] /\
    filter isSendAggregatedResponse evs = [] /\
    filter isInitializeNewTask evs = [].
Proof.
  intros Ht He. cbv zeta. open_world w.
  unfold handleBlsAggServiceResponse. rewrite He. run_m.
  do 2 eexists. split_and!. 4: reflexivity. all: reflexivity.
Qed.

(** C7. [sendAggregatedResponse] returns the writer's receipt and a nil error
    when the chain writer succeeds, and a nil receipt and the writer's error
    when it fails.  When the writer succeeds without a receipt the handler
    takes the success path: telemetry gets ["Unknown"] for the transaction
    hash and for the gas price, and no task error is recorded. *)
Theorem missing_receipt_is_success w :
  taskMutex w = false ->
  walletMutex w = false ->
  (forall id mr s p receipt elapsed,
     exists w', sendAggregatedResponse id mr s p (receipt, None) elapsed w
                = Returned (receipt, None) w') /\
  (forall id mr s p receipt e elapsed,
     exists w', sendAggregatedResponse id mr s p (receipt, Some e) elapsed w
                = Returned (None, Some e) w') /\
  (forall resp r,
     respErr resp = None ->
     written r = (None, None) ->
     let batchData :=
       readOr zeroBatchData (batchDataByIdentifierHash (agg w))
         (readOr (zeroBytes 32) (batchesIdentifierHashByIdx (agg w))
            (TaskIndex resp)) in
     exists w' evs,
       handleBlsAggServiceResponse resp r w = Returned tt w' /\
       trace w' = evs ++ trace w /\
       filter isTaskSentToEthereum evs =
         [TaskSentToEthereum (BatchMerkleRoot batchData) "Unknown" "Unknown"] /\
       filter isLogTaskError evs = [] /\
       (Log Error "Aggregator failed to respond to task, this batch will be lost"
          ∉ evs) /\
       (IncAggregatedResponses ∈ evs)).
Proof.
  intros Ht Hw. open_world w. split_and!.
  - intros. unfold sendAggregatedResponse. run_m. eauto.
  - intros. unfold sendAggregatedResponse. run_m. eauto.
  - intros resp r He Hwr. cbv zeta.
    unfold handleBlsAggServiceResponse, sendAggregatedResponse.
    rewrite He, Hwr. run_m.
    destruct (waitErr r); run_m; new_events tr;
      (split_and!; [reflexivity .. | not_in_events | in_events ]).
Qed.

(** C9. A BLS response without error whose task index has no entry in the
    registry is not recognised as such: the handler reads zero values and
    calls [SendAggregatedResponse] once, with the zero identifier hash, the
    zero merkle root and the zero sender address, after waiting for the block
    after block zero.  (No stored payload is keyed by the zero hash.) *)
Theorem unknown_index_sends_zero_values ops w resp r :
  run ops initWorld = Returned tt w ->
  respErr resp = None ->
  batchesIdentifierHashByIdx (agg w) !! TaskIndex resp = None ->
  batchDataByIdentifierHash (agg w) !! zeroBytes 32 = None ->
  exists w' evs,
    handleBlsAggServiceResponse resp r w = Returned tt w' /\
    trace w' = evs ++ trace w /\
    filter isSendAggregatedResponse evs =
      [SendAggregatedResponse (zeroBytes 32) (zeroBytes 32) (zeroBytes 20)
         (payloadOf resp)] /\
    (WaitForOneBlock 0 ∈ evs) /\
    (ObserveTaskQuorumReached (sinceCreated r 0) ∈ evs).
Proof.
  intros Hr He Hidx Hzero.
  assert (Hw : WorldInv w) by (apply reachable_inv; by exists ops).
  destruct Hw as [Ha Ht Hwm Hl Htr].
  assert (Hblk : batchCreatedBlockByIdx (agg w) !! TaskIndex resp = None).
  { destruct (batchCreatedBlockByIdx (agg w) !! TaskIndex resp) eqn:E; auto.
    assert (Hs : is_Some (batchesIdentifierHashByIdx (agg w) !! TaskIndex resp))
      by (apply (inv_block _ Ha); eauto).
    destruct Hs; congruence. }
  assert (Htime : batchStartTimeByIdx (agg w) !! TaskIndex resp = None).
  { destruct (batchStartTimeByIdx (agg w) !! TaskIndex resp) eqn:E; auto.
    assert (Hs : is_Some (batchesIdentifierHashByIdx (agg w) !! TaskIndex resp))
      by (apply (inv_time _ Ha); eauto).
    destruct Hs; congruence. }
  clear Hr Ha Htr Hl. open_world w.
  unfold handleBlsAggServiceResponse, sendAggregatedResponse.
  rewrite He. run_m. unfold readOr.
  rewrite Hidx; cbv beta iota. rewrite Hzero, Hblk, Htime; cbv beta iota.
  destruct (waitErr r), (written r) as [[rc|] [e|]]; run_m;
    new_events tr;
    (split_and!; [reflexivity .. | in_events | in_events ]).
Qed.



Lemma step_keeps_holds op w w' i b :
  WorldInv w -> notGcRound op ->
  step op w = Returned tt w' ->
  holds (agg w) i b -> holds (agg w') i b.
Proof.
  intros Hw Hop Hr Hb. destruct op as [mr s blk now be | resp r | fuel o];
    simpl in *; [| | contradiction].
  - apply AddNewTask_returned in Hr; [| apply (winv_task w Hw)].
    destruct Hr as [[-> _] | (Hh & Hi & _ & ->)]; [exact Hb|].
    simpl. by apply holds_insertTask_other.
  - destruct (handle_returned resp r w (winv_task w Hw) (winv_wallet w Hw))
      as (w0 & E & Hagg & _).
    rewrite E in Hr. inversion Hr; subst. by rewrite Hagg.
Qed.

Lemma run_keeps_holds ops i b : forall w w',
  WorldInv w -> Forall notGcRound ops ->
  run ops w = Returned tt w' ->
  holds (agg w) i b -> holds (agg w') i b.
Proof.
  induction ops as [|op ops IH]; intros w w' Hw Hops Hr Hb.
  - inversion Hr; subst; assumption.
  - rewrite run_cons in Hr. apply Forall_cons in Hops as [Hop Hops].
    destruct (step op w) as [[] w1| | |] eqn:E; try discriminate.
    eapply IH; [| eassumption | eassumption |].
    + eapply step_inv; eauto.
    + eapply step_keeps_holds; eauto.
Qed.

(** An error-free response for a live index is sent once, with the
    identifier and the payload stored for the index. *)
Lemma handle_sends resp r w key d :
  taskMutex w = false -> walletMutex w = false ->
  respErr resp = None ->
  batchesIdentifierHashByIdx (agg w) !! TaskIndex resp = Some key ->
  batchDataByIdentifierHash (agg w) !! key = Some d ->
  exists w' evs,
    handleBlsAggServiceResponse resp r w = Returned tt w' /\
    trace w' = evs ++ trace w /\
    filter isSendAggregatedResponse evs =
      [SendAggregatedResponse key (BatchMerkleRoot d) (SenderAddress d)
         (payloadOf resp)].
Proof.
  intros Ht Hwm He Hkey Hd. open_world w.
  unfold handleBlsAggServiceResponse, sendAggregatedResponse.
  rewrite He. run_m. unfold readOr.
  rewrite Hkey; cbv beta iota. rewrite Hd; cbv beta iota.
  destruct (waitErr r), (written r) as [[rc|] [e|]]; run_m;
    new_events tr; (split_and!; reflexivity).
Qed.




Lemma holds_kept lo hi a a' i b :
  clearedRange lo hi a a' -> RegistryInv a -> ~ (lo <= i <= hi) ->
  holds a i b -> holds a' i b.
Proof.
  intros Hc Ha Hout (H1 & H2 & H3 & H4 & H5).
  destruct (clearedRange_kept _ _ _ _ i Hc Ha Hout) as (K1 & K2 & K3 & K4).
  destruct (K4 _ H1) as [K5 K6].
  unfold holds. rewrite K1, K2, K3, K5, K6. auto.
Qed.

Lemma initWorld_belowNext : belowNext (agg initWorld).
Proof.
  intros i [h Hh]. simpl in Hh. rewrite lookup_empty in Hh. discriminate.
Qed.

(** C1. Ten distinct batches are admitted at the indices 0 to 9.  A round of
    the garbage collector for the hash of index 6 then returns with the
    indices 1 to 6 gone from the five maps and the indices 7 to 9 as they
    were, and a second round for the same hash leaves the registry as it is.
    The entries of index 0 are still in all five maps: the loop started at
    [lastIdxDeleted + 1 = 1]. *)
Theorem gc_round_after_ten_admissions (bs : list NewBatch) b0 b6 :
  length bs = 10%nat ->
  NoDup (map identifierOf bs) ->
  bs !! 0%nat = Some b0 ->
  bs !! 6%nat = Some b6 ->
  exists w10,
    run (map admission bs) initWorld = Returned tt w10 /\
    (forall (k : nat) b, bs !! k = Some b -> holds (agg w10) (Z.of_nat k) b) /\
    exists fuel w',
      ClearTasksFromMaps_round fuel (Some (identifierOf b6), None) w10
        = Returned tt w' /\
      holds (agg w') 0 b0 /\
      (forall i, 1 <= i <= 6 -> noneOfFive (agg w') i) /\
      (forall (k : nat) b, (7 <= k <= 9)%nat -> bs !! k = Some b ->
         holds (agg w') (Z.of_nat k) b) /\
      lastIdxDeleted w' = 6 /\
      forall fuel2, (0 < fuel2)%nat ->
        exists w'',
          ClearTasksFromMaps_round fuel2 (Some (identifierOf b6), None) w'
            = Returned tt w'' /\
          agg w'' = agg w'.
Proof.
  intros Hlen Hnd Hb0 Hb6.
  assert (Hroom : nextBatchIndex (agg initWorld) + Z.of_nat (length bs)
                  <= 2 ^ 32).
  { rewrite Hlen. change (nextBatchIndex (agg initWorld)) with 0. lia. }
  assert (Hfresh : forall b, b ∈ bs ->
            batchesIdxByIdentifierHash (agg initWorld) !! identifierOf b
            = None).
  { intros b _. simpl. apply lookup_empty. }
  destruct (run_fresh_admissions bs initWorld initWorld_inv initWorld_belowNext
              Hroom Hnd Hfresh)
    as (w10 & Hrun & Hw10 & Hnext & _ & Hlast & Hnew & _).
  change (nextBatchIndex (agg initWorld)) with 0 in Hnew.
  change (lastIdxDeleted initWorld) with 0 in Hlast.
  assert (Hnew' : forall (k : nat) b, bs !! k = Some b ->
                    holds (agg w10) (Z.of_nat k) b).
  { intros k b Hk. specialize (Hnew k b Hk). by rewrite Z.add_0_l in Hnew. }
  clear Hnew.
  exists w10. split_and!; auto.
  pose proof (winv_registry _ Hw10) as Ha10.
  pose proof (Hnew' _ _ Hb6) as H6. pose proof (Hnew' _ _ Hb0) as H0.
  assert (Hidx6 : readOr 0 (batchesIdxByIdentifierHash (agg w10))
                    (identifierOf b6) = 6).
  { unfold readOr. destruct H6 as (_ & -> & _). reflexivity. }
  destruct (round_terminates 7 (identifierOf b6) w10 Hw10) as [w' Hround].
  { rewrite Hidx6. lia. }
  { rewrite Hidx6, Hlast. simpl. lia. }
  exists 7%nat, w'. split; [exact Hround|].
  apply round_returned in Hround as (_ & Hc & Hlast' & Hw'); [|assumption].
  rewrite Hidx6, Hlast in Hc. rewrite Hidx6 in Hlast'. simpl in Hc.
  split_and!; auto.
  - eapply holds_kept; eauto. lia.
  - intros i Hi. eapply clearedRange_none; eauto.
  - intros k b Hk Hb. eapply holds_kept; eauto. lia.
  - intros fuel2 Hfuel.
    assert (Hgone : batchesIdxByIdentifierHash (agg w') !! identifierOf b6
                    = None).
    { rewrite (cr_idx _ _ _ _ Hc). destruct H6 as (_ & -> & _).
      rewrite decide_True by lia. reflexivity. }
    assert (Hidx0 : readOr 0 (batchesIdxByIdentifierHash (agg w'))
                      (identifierOf b6) = 0).
    { unfold readOr. by rewrite Hgone. }
    destruct (round_terminates fuel2 (identifierOf b6) w' Hw') as [w'' Hround2].
    { rewrite Hidx0. lia. }
    { rewrite Hidx0, Hlast'. simpl. lia. }
    exists w''. split; [exact Hround2|].
    apply round_returned in Hround2 as (_ & Hc2 & _ & _); [|assumption].
    rewrite Hidx0, Hlast' in Hc2.
    eapply clearedRange_same; [exact Hc2 | apply (winv_registry _ Hw') | lia].
Qed.

(** ** The counter and the number of admissions *)

Lemma step_counts op w w' :
  WorldInv w -> belowNext (agg w) ->
  step op w = Returned tt w' ->
  nextBatchIndex (agg w) + Z.of_nat (nonDuplicateAdmissions [op] w) < 2 ^ 32 ->
  nextBatchIndex (agg w') =
    nextBatchIndex (agg w) + Z.of_nat (nonDuplicateAdmissions [op] w) /\
  belowNext (agg w').
Proof.
  intros Hw Hbelow Hr Hbound.
  pose proof (inv_next _ (winv_registry w Hw)) as Hrange.
  cbn [nonDuplicateAdmissions] in *. rewrite Hr in *.
  rewrite Nat.add_0_r in *.
  destruct op as [mr s blk now be | resp r | fuel [[h|] [e|]]]; simpl in Hr.
  - apply AddNewTask_returned in Hr; [| apply (winv_task w Hw)].
    destruct Hr as [[-> [[j Hj]|Hslot]] | (Hh & Hi & _ & ->)].
    + rewrite Hj. clear Hbound. simpl. split; [symmetry; apply Z.add_0_r | assumption].
    + apply Hbelow in Hslot. lia.
    + rewrite Hh in *. simpl in *. rewrite uint32_small by lia.
      split; [lia|].
      intros i Hsome. simpl in *. rewrite uint32_small by lia.
      rewrite lookup_insert in Hsome.
      case_decide; [lia|]. apply Hbelow in Hsome. lia.
  - destruct (handle_returned resp r w (winv_task w Hw) (winv_wallet w Hw))
      as (w0 & E & Hagg & _).
    rewrite E in Hr. inversion Hr; subst. rewrite Hagg.
    split; [simpl; lia | assumption].
  - rewrite round_error in Hr. inversion Hr; subst.
    split; [simpl; lia | assumption].
  - apply round_returned in Hr as (_ & Hc & _ & _); [|assumption].
    rewrite (cr_next _ _ _ _ Hc). split; [simpl; lia|].
    intros i Hsome. rewrite (cr_hash _ _ _ _ Hc) in Hsome.
    case_decide; [destruct Hsome; discriminate |].
    rewrite (cr_next _ _ _ _ Hc). by apply Hbelow.
  - rewrite round_error in Hr. inversion Hr; subst.
    split; [simpl; lia | assumption].
  - rewrite round_nothing in Hr. inversion Hr; subst.
    split; [simpl; lia | assumption].
Qed.

Lemma nonDuplicateAdmissions_cons op ops w w1 :
  step op w = Returned tt w1 ->
  nonDuplicateAdmissions (op :: ops) w =
  (nonDuplicateAdmissions [op] w + nonDuplicateAdmissions ops w1)%nat.
Proof.
  intros Hr. cbn [nonDuplicateAdmissions]. rewrite Hr. lia.
Qed.

Lemma run_counts ops : forall w w',
  WorldInv w -> belowNext (agg w) ->
  run ops w = Returned tt w' ->
  nextBatchIndex (agg w) + Z.of_nat (nonDuplicateAdmissions ops w) < 2 ^ 32 ->
  nextBatchIndex (agg w') =
    nextBatchIndex (agg w) + Z.of_nat (nonDuplicateAdmissions ops w) /\
  belowNext (agg w').
Proof.
  induction ops as [|op ops IH]; intros w w' Hw Hbelow Hr Hbound.
  - inversion Hr; subst. simpl. split; [lia | assumption].
  - rewrite run_cons in Hr.
    destruct (step op w) as [[] w1| | |] eqn:E; try discriminate.
    rewrite (nonDuplicateAdmissions_cons op ops w w1 E) in *.
    destruct (step_counts op w w1 Hw Hbelow E) as [Hn Hb]; [lia|].
    destruct (IH w1 w') as [Hn' Hb']; auto.
    + eapply step_inv; eauto.
    + lia.
    + split; [lia | assumption].
Qed.

Lemma nonDuplicateAdmissions_app ops1 : forall ops2 w w1,
  run ops1 w = Returned tt w1 ->
  nonDuplicateAdmissions (ops1 ++ ops2) w =
  (nonDuplicateAdmissions ops1 w + nonDuplicateAdmissions ops2 w1)%nat.
Proof.
  induction ops1 as [|op ops1 IH]; intros ops2 w w1 Hr.
  - inversion Hr; subst. reflexivity.
  - rewrite run_cons in Hr.
    destruct (step op w) as [[] w0| | |] eqn:E; try discriminate.
    change ((op :: ops1) ++ ops2) with (op :: (ops1 ++ ops2)).
    rewrite (nonDuplicateAdmissions_cons op (ops1 ++ ops2) w w0 E).
    rewrite (nonDuplicateAdmissions_cons op ops1 w w0 E).
    rewrite (IH ops2 w0 w1 Hr). lia.
Qed.

(** C4, as the code has it.  [nextBatchIndex] starts at [0].  After a run in
    which fewer than [2^32] calls of [AddNewTask] brought an identifier that
    was not in the registry, it is the number of these calls.  In such a
    world a call with a known identifier leaves it unchanged, a call with a
    new identifier adds one in [uint32] arithmetic (a true [+ 1] below
    [2^32 - 1]), and it has not decreased after any further run that stays
    below [2^32] admissions. *)
Theorem next_index_counts_admissions ops w :
  run ops initWorld = Returned tt w ->
  Z.of_nat (nonDuplicateAdmissions ops initWorld) < 2 ^ 32 ->
  nextBatchIndex NewAggregator = 0 /\
  nextBatchIndex (agg w) = Z.of_nat (nonDuplicateAdmissions ops initWorld) /\
  (forall mr s blk now be w',
     AddNewTask mr s blk now be w = Returned tt w' ->
     (is_Some (batchesIdxByIdentifierHash (agg w) !! batchIdentifierHashOf mr s)
      -> nextBatchIndex (agg w') = nextBatchIndex (agg w)) /\
     (batchesIdxByIdentifierHash (agg w) !! batchIdentifierHashOf mr s = None
      -> nextBatchIndex (agg w') = uint32 (nextBatchIndex (agg w) + 1) /\
         (nextBatchIndex (agg w) < maxUint32 ->
          nextBatchIndex (agg w') = nextBatchIndex (agg w) + 1))) /\
  (forall more w2,
     run more w = Returned tt w2 ->
     Z.of_nat (nonDuplicateAdmissions (ops ++ more) initWorld) < 2 ^ 32 ->
     nextBatchIndex (agg w) <= nextBatchIndex (agg w2)).
Proof.
  intros Hr Hbound.
  assert (Hw : WorldInv w) by (apply reachable_inv; by exists ops).
  destruct (run_counts ops initWorld w initWorld_inv initWorld_belowNext Hr)
    as [Hnext Hbelow].
  { change (nextBatchIndex (agg initWorld)) with 0. lia. }
  change (nextBatchIndex (agg initWorld)) with 0 in Hnext.
  split_and!.
  - reflexivity.
  - lia.
  - intros mr s blk now be w' Hcall.
    apply AddNewTask_returned in Hcall; [| apply (winv_task w Hw)].
    destruct Hcall as [[-> [Hdup|Hslot]] | (Hh & Hi & _ & ->)].
    + split; [reflexivity|]. intros Hnone. destruct Hdup; congruence.
    + apply Hbelow in Hslot. lia.
    + split.
      * intros [j Hj]. congruence.
      * intros _. split; [reflexivity|]. intros Hlt. simpl.
        pose proof (inv_next _ (winv_registry w Hw)).
        apply uint32_small. unfold maxUint32 in Hlt. lia.
  - intros more w2 Hmore Hbound2.
    rewrite (nonDuplicateAdmissions_app ops more initWorld w Hr) in Hbound2.
    destruct (run_counts more w w2 Hw Hbelow Hmore) as [Hnext2 _]; lia.
Qed.

(** * Further properties of the code *)

(** ** Intake *)

(** X1. When the BLS service refuses a new task, [AddNewTask] ends the
    process after the five map writes and the increment: the registry holds
    the batch, [taskMutex] is still held, the last event is the fatal log
    line, [InitializeNewTaskWithWindow] was called, and neither the
    received-tasks metric nor a mutex release followed. *)
Theorem bls_init_failure_exits_holding_mutex mr s blk now e w :
  taskMutex w = false ->
  batchesIdxByIdentifierHash (agg w) !! batchIdentifierHashOf mr s = None ->
  batchesIdentifierHashByIdx (agg w) !! nextBatchIndex (agg w) = None ->
  exists w' evs,
    AddNewTask mr s blk now (Some e) w = Exited w' /\
    agg w' = insertTask (batchIdentifierHashOf mr s)
               {| BatchMerkleRoot := mr; SenderAddress := s |} blk now (agg w) /\
    taskMutex w' = true /\
    trace w' = evs ++ trace w /\
    head evs =
      Some (Log Fatal
              "BLS aggregation service error when initializing new task: %s") /\
    (InitializeNewTaskWithWindow (nextBatchIndex (agg w)) blk [0] [67] ∈ evs) /\
    filter isMetric evs = [] /\
    filter isUnlock evs = [].
Proof.
  intros Hm Hh Hi. open_world w. unfold AddNewTask. run_m.
  rewrite Hh, Hi.
  lazymatch goal with
  | |- exists w' evs, Exited ?W = Exited w' /\ _ =>
      let l := eval cbv [trace] in (trace W) in
      let p := prefix_upto tr l in exists W, p
  end.
  split_and!; try reflexivity. in_events.
Qed.

(** X2. [AddNewTask] only adds: in a reachable world a call that returns
    leaves every entry of the five maps in place with its value, and the
    counter is as before or one more ([uint32]). *)
Theorem AddNewTask_only_adds ops w mr s blk now be w' :
  run ops initWorld = Returned tt w ->
  AddNewTask mr s blk now be w = Returned tt w' ->
  (forall i v, batchesIdentifierHashByIdx (agg w) !! i = Some v ->
               batchesIdentifierHashByIdx (agg w') !! i = Some v) /\
  (forall h v, batchesIdxByIdentifierHash (agg w) !! h = Some v ->
               batchesIdxByIdentifierHash (agg w') !! h = Some v) /\
  (forall i v, batchCreatedBlockByIdx (agg w) !! i = Some v ->
               batchCreatedBlockByIdx (agg w') !! i = Some v) /\
  (forall h v, batchDataByIdentifierHash (agg w) !! h = Some v ->
               batchDataByIdentifierHash (agg w') !! h = Some v) /\
  (forall i v, batchStartTimeByIdx (agg w) !! i = Some v ->
               batchStartTimeByIdx (agg w') !! i = Some v) /\
  (nextBatchIndex (agg w') = nextBatchIndex (agg w) \/
   nextBatchIndex (agg w') = uint32 (nextBatchIndex (agg w) + 1)).
Proof.
  intros Hr Hcall.
  assert (Hw : WorldInv w) by (apply reachable_inv; by exists ops).
  pose proof (winv_registry w Hw) as Ha.
  apply AddNewTask_returned in Hcall; [| apply (winv_task w Hw)].
  destruct Hcall as [[-> _] | (Hh & Hi & _ & ->)].
  { simpl. split_and!; auto. }
  simpl. split_and!; auto.
  - intros i v Hv. rewrite lookup_insert_ne; [assumption | congruence].
  - intros h v Hv. rewrite lookup_insert_ne; [assumption | congruence].
  - intros i v Hv. rewrite lookup_insert_ne; [assumption|].
    intros <-. assert (Hs : is_Some (batchesIdentifierHashByIdx (agg w)
                                       !! nextBatchIndex (agg w)))
      by (apply (inv_block _ Ha); eauto).
    destruct Hs; congruence.
  - intros h v Hv. rewrite lookup_insert_ne; [assumption|].
    intros <-. assert (Hs : is_Some (batchesIdxByIdentifierHash (agg w)
                                       !! batchIdentifierHashOf mr s))
      by (apply (inv_data _ Ha); eauto).
    destruct Hs; congruence.
  - intros i v Hv. rewrite lookup_insert_ne; [assumption|].
    intros <-. assert (Hs : is_Some (batchesIdentifierHashByIdx (agg w)
                                       !! nextBatchIndex (agg w)))
      by (apply (inv_time _ Ha); eauto).
    destruct Hs; congruence.
Qed.

(** ** Garbage collector *)

Lemma clearedRange_only_removes lo hi a a' :
  clearedRange lo hi a a' ->
  (forall i v, batchesIdentifierHashByIdx a' !! i = Some v ->
               batchesIdentifierHashByIdx a !! i = Some v) /\
  (forall h v, batchesIdxByIdentifierHash a' !! h = Some v ->
               batchesIdxByIdentifierHash a !! h = Some v) /\
  (forall i v, batchCreatedBlockByIdx a' !! i = Some v ->
               batchCreatedBlockByIdx a !! i = Some v) /\
  (forall h v, batchDataByIdentifierHash a' !! h = Some v ->
               batchDataByIdentifierHash a !! h = Some v) /\
  (forall i v, batchStartTimeByIdx a' !! i = Some v ->
               batchStartTimeByIdx a !! i = Some v).
Proof.
  intros [H1 H2 H3 H4 H5 H6]. split_and!.
  - intros i v. rewrite H1. case_decide; [discriminate | auto].
  - intros h v. rewrite H4.
    destruct (batchesIdxByIdentifierHash a !! h); [|discriminate].
    case_decide; [discriminate | auto].
  - intros i v. rewrite H2. case_decide; [discriminate | auto].
  - intros h v. rewrite H5.
    destruct (batchesIdxByIdentifierHash a !! h); [|discriminate].
    case_decide; [discriminate | auto].
  - intros i v. rewrite H3. case_decide; [discriminate | auto].
Qed.

(** X3. A round of the collector only removes: every entry left after a
    round that returns was there before with the same value, the counter is
    untouched, and the entries of every index at or below the old watermark
    or above the new one are all kept.  A round that got an error or no hash
    from the chain changes neither the registry nor the watermark. *)
Theorem gc_round_only_removes ops w fuel oldTask w' :
  run ops initWorld = Returned tt w ->
  ClearTasksFromMaps_round fuel oldTask w = Returned tt w' ->
  ((forall i v, batchesIdentifierHashByIdx (agg w') !! i = Some v ->
                batchesIdentifierHashByIdx (agg w) !! i = Some v) /\
   (forall h v, batchesIdxByIdentifierHash (agg w') !! h = Some v ->
                batchesIdxByIdentifierHash (agg w) !! h = Some v) /\
   (forall i v, batchCreatedBlockByIdx (agg w') !! i = Some v ->
                batchCreatedBlockByIdx (agg w) !! i = Some v) /\
   (forall h v, batchDataByIdentifierHash (agg w') !! h = Some v ->
                batchDataByIdentifierHash (agg w) !! h = Some v) /\
   (forall i v, batchStartTimeByIdx (agg w') !! i = Some v ->
                batchStartTimeByIdx (agg w) !! i = Some v)) /\
  nextBatchIndex (agg w') = nextBatchIndex (agg w) /\
  (forall h, oldTask = (Some h, None) ->
     forall i, i <= lastIdxDeleted w \/ lastIdxDeleted w' < i ->
       batchesIdentifierHashByIdx (agg w') !! i =
         batchesIdentifierHashByIdx (agg w) !! i /\
       batchCreatedBlockByIdx (agg w') !! i =
         batchCreatedBlockByIdx (agg w) !! i /\
       batchStartTimeByIdx (agg w') !! i = batchStartTimeByIdx (agg w) !! i /\
       forall hi, batchesIdentifierHashByIdx (agg w) !! i = Some hi ->
         batchesIdxByIdentifierHash (agg w') !! hi = Some i /\
         batchDataByIdentifierHash (agg w') !! hi =
           batchDataByIdentifierHash (agg w) !! hi) /\
  ((forall h, oldTask <> (Some h, None)) ->
     agg w' = agg w /\ lastIdxDeleted w' = lastIdxDeleted w).
Proof.
  intros Hr Hround.
  assert (Hw : WorldInv w) by (apply reachable_inv; by exists ops).
  pose proof (winv_registry w Hw) as Ha.
  destruct oldTask as [[h|] [e|]].
  - rewrite round_error in Hround. inversion Hround; subst. simpl.
    split_and!; auto. intros h' Heq. discriminate.
  - apply round_returned in Hround as (Hhi & Hc & Hlast & Hw'); auto.
    split; [by apply (clearedRange_only_removes _ _ _ _ Hc)|].
    split; [apply (cr_next _ _ _ _ Hc)|].
    split.
    + intros h' Heq i Hi. apply (clearedRange_kept _ _ _ _ i Hc Ha). lia.
    + intros Hne. exfalso. by apply (Hne h).
  - rewrite round_error in Hround. inversion Hround; subst. simpl.
    split_and!; auto. intros h' Heq. discriminate.
  - rewrite round_nothing in Hround. inversion Hround; subst. simpl.
    split_and!; auto. intros h' Heq. discriminate.
Qed.

Lemma step_watermark op w w' :
  WorldInv w -> belowNext (agg w) ->
  watermarkBelowNext w -> aboveWatermark w ->
  step op w = Returned tt w' ->
  nextBatchIndex (agg w) + Z.of_nat (nonDuplicateAdmissions [op] w) < 2 ^ 32 ->
  watermarkBelowNext w' /\ aboveWatermark w'.
Proof.
  intros Hw Hbelow Hwm Habove Hr Hbound.
  destruct (step_counts op w w' Hw Hbelow Hr Hbound) as [Hnext _].
  pose proof (inv_next _ (winv_registry w Hw)) as Hrange.
  pose proof (winv_registry w Hw) as Ha.
  unfold watermarkBelowNext, aboveWatermark in *.
  destruct op as [mr s blk now be | resp r | fuel [[h|] [e|]]]; simpl in Hr.
  - apply AddNewTask_returned in Hr; [| apply (winv_task w Hw)].
    destruct Hr as [[-> _] | (Hh & Hi & _ & ->)]; [auto|].
    simpl in *. split; [lia|].
    intros i Hsome. rewrite lookup_insert in Hsome.
    case_decide; [subst i; lia | auto].
  - destruct (handle_returned resp r w (winv_task w Hw) (winv_wallet w Hw))
      as (w0 & E & Hagg & _ & _ & Hlast & _).
    rewrite E in Hr. inversion Hr; subst. rewrite Hagg, Hlast. auto.
  - rewrite round_error in Hr. inversion Hr; subst. auto.
  - apply round_returned in Hr as (_ & Hc & Hlast & _); [|assumption].
    rewrite Hlast, (cr_next _ _ _ _ Hc). split.
    + unfold readOr.
      destruct (batchesIdxByIdentifierHash (agg w) !! h) as [j|] eqn:E;
        [|auto].
      right. apply Hbelow. apply (inv_inverse _ Ha) in E. eauto.
    + intros i Hsome. rewrite (cr_hash _ _ _ _ Hc) in Hsome.
      case_decide; [destruct Hsome; discriminate|].
      destruct (Habove i Hsome); [auto | right; lia].
  - rewrite round_error in Hr. inversion Hr; subst. auto.
  - rewrite round_nothing in Hr. inversion Hr; subst. auto.
Qed.

Lemma run_watermark ops : forall w w',
  WorldInv w -> belowNext (agg w) ->
  watermarkBelowNext w -> aboveWatermark w ->
  run ops w = Returned tt w' ->
  nextBatchIndex (agg w) + Z.of_nat (nonDuplicateAdmissions ops w) < 2 ^ 32 ->
  watermarkBelowNext w' /\ aboveWatermark w'.
Proof.
  induction ops as [|op ops IH]; intros w w' Hw Hbelow Hwm Habove Hr Hbound.
  - inversion Hr; subst. auto.
  - rewrite run_cons in Hr.
    destruct (step op w) as [[] w1| | |] eqn:E; try discriminate.
    rewrite (nonDuplicateAdmissions_cons op ops w w1 E) in Hbound.
    destruct (step_counts op w w1 Hw Hbelow E) as [Hn Hb]; [lia|].
    destruct (step_watermark op w w1 Hw Hbelow Hwm Habove E) as [Hwm1 Hab1];
      [lia|].
    apply (IH w1 w'); auto.
    + eapply step_inv; eauto.
    + lia.
Qed.

(** X4. As long as fewer than [2^32] batches were admitted, every index in
    use other than [0] is above the collector's watermark, and the watermark
    is [0] or below the counter: the scan from [lastIdxDeleted + 1] passes
    over no entry other than those of index [0]. *)
Theorem live_indices_above_watermark ops w :
  run ops initWorld = Returned tt w ->
  Z.of_nat (nonDuplicateAdmissions ops initWorld) < 2 ^ 32 ->
  (forall i, is_Some (batchesIdentifierHashByIdx (agg w) !! i) ->
     i = 0 \/ lastIdxDeleted w < i) /\
  (lastIdxDeleted w = 0 \/ lastIdxDeleted w < nextBatchIndex (agg w)).
Proof.
  intros Hr Hbound.
  assert (Hwm0 : watermarkBelowNext initWorld) by (by left).
  assert (Hab0 : aboveWatermark initWorld).
  { intros i [h Hh]. simpl in Hh. rewrite lookup_empty in Hh. discriminate. }
  assert (Hb0 : nextBatchIndex (agg initWorld)
                + Z.of_nat (nonDuplicateAdmissions ops initWorld) < 2 ^ 32).
  { change (nextBatchIndex (agg initWorld)) with 0. lia. }
  destruct (run_watermark ops initWorld w initWorld_inv initWorld_belowNext
              Hwm0 Hab0 Hr Hb0) as [Hwm Habove].
  split; assumption.
Qed.

Lemma step_keyedByDigest op w w' :
  WorldInv w -> keyedByDigest (agg w) ->
  step op w = Returned tt w' -> keyedByDigest (agg w').
Proof.
  intros Hw Hk Hr.
  destruct op as [mr s blk now be | resp r | fuel [[h|] [e|]]]; simpl in Hr.
  - apply AddNewTask_returned in Hr; [| apply (winv_task w Hw)].
    destruct Hr as [[-> _] | (Hh & Hi & _ & ->)]; [exact Hk|].
    intros h d. simpl. rewrite lookup_insert.
    case_decide; [| apply Hk]. intros Hd. inversion Hd; subst. reflexivity.
  - destruct (handle_returned resp r w (winv_task w Hw) (winv_wallet w Hw))
      as (w0 & E & Hagg & _).
    rewrite E in Hr. inversion Hr; subst. by rewrite Hagg.
  - rewrite round_error in Hr. inversion Hr; subst. exact Hk.
  - apply round_returned in Hr as (_ & Hc & _ & _); [|assumption].
    intros h' d Hd. apply Hk.
    by apply (clearedRange_only_removes _ _ _ _ Hc).
  - rewrite round_error in Hr. inversion Hr; subst. exact Hk.
  - rewrite round_nothing in Hr. inversion Hr; subst. exact Hk.
Qed.

Lemma run_keyedByDigest ops : forall w w',
  WorldInv w -> keyedByDigest (agg w) ->
  run ops w = Returned tt w' -> keyedByDigest (agg w').
Proof.
  induction ops as [|op ops IH]; intros w w' Hw Hk Hr.
  - inversion Hr; subst. exact Hk.
  - rewrite run_cons in Hr.
    destruct (step op w) as [[] w1| | |] eqn:E; try discriminate.
    apply (IH w1 w'); auto.
    + eapply step_inv; eauto.
    + eapply step_keyedByDigest; eauto.
Qed.

(** X5. Every payload in the registry is stored under the Keccak digest of
    its own merkle root and sender.  So whatever index in use the BLS service
    answers for without error, the identifier of the one
    [SendAggregatedResponse] call is the digest of the merkle root and the
    sender address passed with it. *)
Theorem sent_identifier_is_digest_of_sent_payload ops w :
  run ops initWorld = Returned tt w ->
  (forall h d, batchDataByIdentifierHash (agg w) !! h = Some d ->
     h = Keccak256 (BatchMerkleRoot d ++ SenderAddress d)) /\
  (forall resp r key,
     respErr resp = None ->
     batchesIdentifierHashByIdx (agg w) !! TaskIndex resp = Some key ->
     exists w' evs mr s,
       handleBlsAggServiceResponse resp r w = Returned tt w' /\
       trace w' = evs ++ trace w /\
       filter isSendAggregatedResponse evs =
         [SendAggregatedResponse key mr s (payloadOf resp)] /\
       key = Keccak256 (mr ++ s)).
Proof.
  intros Hr.
  assert (Hw : WorldInv w) by (apply reachable_inv; by exists ops).
  pose proof (winv_registry w Hw) as Ha.
  assert (Hk : keyedByDigest (agg w)).
  { apply (run_keyedByDigest ops initWorld w initWorld_inv); [|exact Hr].
    intros h d Hd. simpl in Hd. rewrite lookup_empty in Hd. discriminate. }
  split; [exact Hk|].
  intros resp r key He Hkey.
  assert (Hd : is_Some (batchDataByIdentifierHash (agg w) !! key)).
  { apply (inv_data _ Ha). apply (inv_inverse _ Ha) in Hkey. eauto. }
  destruct Hd as [d Hd].
  destruct (handle_sends resp r w key d (winv_task w Hw) (winv_wallet w Hw)
              He Hkey Hd) as (w' & evs & Hrun & Htrace & Hsend).
  exists w', evs, (BatchMerkleRoot d), (SenderAddress d).
  split_and!; auto. by apply Hk.
Qed.

(** ** Aggregation loop *)

(** X6. With both mutexes free the handler returns on every path, with both
    mutexes free again and the registry and the watermark untouched.  The
    deferred [FinishTrace] runs exactly once, as the last event, for the
    merkle root read from the registry.  The task mutex is released before
    the wallet mutex is taken, and the wallet mutex is taken only when the
    response carries no error. *)
Theorem handler_finishes_trace_and_releases resp r w :
  taskMutex w = false ->
  walletMutex w = false ->
  let batchData :=
    readOr zeroBatchData (batchDataByIdentifierHash (agg w))
      (readOr (zeroBytes 32) (batchesIdentifierHashByIdx (agg w))
         (TaskIndex resp)) in
  exists w' evs,
    handleBlsAggServiceResponse resp r w = Returned tt w' /\
    trace w' = evs ++ trace w /\
    agg w' = agg w /\
    lastIdxDeleted w' = lastIdxDeleted w /\
    taskMutex w' = false /\
    walletMutex w' = false /\
    head evs = Some (FinishTrace (BatchMerkleRoot batchData)) /\
    filter isFinishTrace evs = [FinishTrace (BatchMerkleRoot batchData)] /\
    rev (filter isMutexEvent evs) =
      [Lock TaskMutex; Unlock TaskMutex (agg w)] ++
      match respErr resp with
      | Some _ => []
      | None => [Lock WalletMutex; Unlock WalletMutex (agg w)]
      end.
Proof.
  intros Ht Hw. cbv zeta. open_world w.
  unfold handleBlsAggServiceResponse, sendAggregatedResponse. run_m.
  destruct (respErr resp), (waitErr r), (written r) as [[rc|] [e|]];
    run_m; new_events tr; (split_and!; reflexivity).
Qed.

(** X7. When the chain writer fails, the handler makes its one
    [SendAggregatedResponse] call and no other, records the writer's error as
    the task error, and reports neither a sent transaction nor the
    response-latency and aggregated-responses metrics; a receipt that came
    with the error is dropped. *)
Theorem send_failure_is_recorded_not_retried resp r receipt e w :
  taskMutex w = false ->
  walletMutex w = false ->
  respErr resp = None ->
  written r = (receipt, Some e) ->
  let batchIdentifierHash :=
    readOr (zeroBytes 32) (batchesIdentifierHashByIdx (agg w))
      (TaskIndex resp) in
  let batchData :=
    readOr zeroBatchData (batchDataByIdentifierHash (agg w))
      batchIdentifierHash in
  let taskCreatedAt :=
    readOr 0 (batchStartTimeByIdx (agg w)) (TaskIndex resp) in
  exists w' evs,
    handleBlsAggServiceResponse resp r w = Returned tt w' /\
    trace w' = evs ++ trace w /\
    filter isSendAggregatedResponse evs =
      [SendAggregatedResponse batchIdentifierHash (BatchMerkleRoot batchData)
         (SenderAddress batchData) (payloadOf resp)] /\
    filter isLogTaskError evs =
      [LogTaskError (BatchMerkleRoot batchData) e] /\
    filter isTaskSentToEthereum evs = [] /\
    filter isMetric evs =
      [ObserveTaskQuorumReached (sinceCreated r taskCreatedAt)] /\
    walletMutex w' = false.
Proof.
  intros Ht Hw He Hwr. cbv zeta. open_world w.
  unfold handleBlsAggServiceResponse, sendAggregatedResponse.
  rewrite He, Hwr. run_m.
  destruct (waitErr r); run_m; new_events tr; (split_and!; reflexivity).
Qed.

(** X8. A failure of [WaitForOneBlock] does not stop the submission: for a
    response without error the handler waits once, for the stored creation
    block, and calls [SendAggregatedResponse] exactly once whatever the wait
    returned; the wait's error only adds the error log line. *)
Theorem wait_failure_does_not_stop_submission resp r w :
  taskMutex w = false ->
  walletMutex w = false ->
  respErr resp = None ->
  exists w' evs,
    handleBlsAggServiceResponse resp r w = Returned tt w' /\
    trace w' = evs ++ trace w /\
    length (filter isSendAggregatedResponse evs) = 1%nat /\
    (WaitForOneBlock
       (readOr 0 (batchCreatedBlockByIdx (agg w)) (TaskIndex resp)) ∈ evs) /\
    (Log Error "Error waiting for one block, sending anyway" ∈ evs <->
     waitErr r <> None).
Proof.
  intros Ht Hw He. open_world w.
  unfold handleBlsAggServiceResponse, sendAggregatedResponse.
  rewrite He. run_m.
  destruct (waitErr r) eqn:Hwait, (written r) as [[rc|] [e|]]; run_m;
    new_events tr;
    (split_and!; [reflexivity | reflexivity | reflexivity | in_events |]).
  all: split;
    [ intros Hin; first [ congruence | exfalso; revert Hin; not_in_events ]
    | intros Hne; first [ congruence | in_events ] ].
Qed.

(** X9. While another handler holds the wallet mutex, a handler for a
    response without error has read the registry and released the task mutex
    before it waits for the wallet: intake and the collector are not held
    up, and nothing was sent yet.  A response with an error is handled to the
    end without the wallet. *)
Theorem waiting_for_wallet_keeps_registry_free resp r w :
  taskMutex w = false ->
  walletMutex w = true ->
  (respErr resp = None ->
   exists w' evs,
     handleBlsAggServiceResponse resp r w = Blocked w' /\
     trace w' = evs ++ trace w /\
     taskMutex w' = false /\
     agg w' = agg w /\
     filter isSendAggregatedResponse evs = [] /\
     filter isFinishTrace evs = []) /\
  (forall e, respErr resp = Some e ->
   exists w',
     handleBlsAggServiceResponse resp r w = Returned tt w' /\
     agg w' = agg w /\ taskMutex w' = false /\ walletMutex w' = true).
Proof.
  intros Ht Hw. open_world w. split.
  - intros He. unfold handleBlsAggServiceResponse, sendAggregatedResponse.
    rewrite He. run_m.
    destruct (waitErr r); run_m;
      lazymatch goal with
      | |- exists w' evs, Blocked ?W = Blocked w' /\ _ =>
          let l := eval cbv [trace] in (trace W) in
          let p := prefix_upto tr l in exists W, p
      end; (split_and!; reflexivity).
  - intros e He. unfold handleBlsAggServiceResponse. rewrite He. run_m.
    eexists. split_and!; reflexivity.
Qed.

(** What the handler does for an index whose four values are in the maps. *)
Lemma handle_reads resp r w key d blk t :
  taskMutex w = false -> walletMutex w = false ->
  respErr resp = None ->
  batchesIdentifierHashByIdx (agg w) !! TaskIndex resp = Some key ->
  batchDataByIdentifierHash (agg w) !! key = Some d ->
  batchCreatedBlockByIdx (agg w) !! TaskIndex resp = Some blk ->
  batchStartTimeByIdx (agg w) !! TaskIndex resp = Some t ->
  exists w' evs,
    handleBlsAggServiceResponse resp r w = Returned tt w' /\
    trace w' = evs ++ trace w /\
    (WaitForOneBlock blk ∈ evs) /\
    (ObserveTaskQuorumReached (sinceCreated r t) ∈ evs) /\
    (LogQuorumReached (BatchMerkleRoot d) ∈ evs) /\
    head evs = Some (FinishTrace (BatchMerkleRoot d)).
Proof.
  intros Ht Hwm He Hkey Hd Hblk Htime. open_world w.
  unfold handleBlsAggServiceResponse, sendAggregatedResponse.
  rewrite He. run_m. unfold readOr.
  rewrite Hkey; cbv beta iota. rewrite Hd, Hblk, Htime; cbv beta iota.
  destruct (waitErr r), (written r) as [[rc|] [e|]]; run_m;
    new_events tr;
    (split_and!; [reflexivity | reflexivity | in_events | in_events
                 | in_events | reflexivity]).
Qed.

(** X10. What [AddNewTask] stores, the handler reads back: after a batch was
    admitted with a creation block in the [uint32] range, a response without
    error for its index (after any further admissions and responses) waits
    for that creation block, measures the quorum latency from the time of
    the admission, and reports the quorum and the end of the trace for the
    admitted merkle root. *)
Theorem handler_reads_back_admitted_values ops w mr s blk now :
  run ops initWorld = Returned tt w ->
  batchesIdxByIdentifierHash (agg w) !! batchIdentifierHashOf mr s = None ->
  batchesIdentifierHashByIdx (agg w) !! nextBatchIndex (agg w) = None ->
  0 <= blk < 2 ^ 32 ->
  exists w1,
    AddNewTask mr s blk now None w = Returned tt w1 /\
    forall more w2 resp r,
      Forall notGcRound more ->
      run more w1 = Returned tt w2 ->
      respErr resp = None ->
      TaskIndex resp = nextBatchIndex (agg w) ->
      exists w3 evs,
        handleBlsAggServiceResponse resp r w2 = Returned tt w3 /\
        trace w3 = evs ++ trace w2 /\
        (WaitForOneBlock blk ∈ evs) /\
        (ObserveTaskQuorumReached (sinceCreated r now) ∈ evs) /\
        (LogQuorumReached mr ∈ evs) /\
        head evs = Some (FinishTrace mr).
Proof.
  intros Hr Hh Hi Hblk.
  assert (Hw : WorldInv w) by (apply reachable_inv; by exists ops).
  set (b := {| nbMerkleRoot := mr; nbSender := s;
               nbCreatedBlock := blk; nbNow := now |}).
  pose proof (AddNewTask_admission b w Hw Hh Hi) as Hstep.
  match type of Hstep with _ = Returned tt ?x => set (w1 := x) in * end.
  assert (Hb : holds (agg w1) (nextBatchIndex (agg w)) b)
    by apply holds_insertTask.
  assert (Hw1 : WorldInv w1) by (eapply step_inv; eauto).
  exists w1. split; [exact Hstep|].
  intros more w2 resp r Hmore Hrun He Hidx.
  assert (Hw2 : WorldInv w2) by (eapply run_inv; eauto).
  pose proof (run_keeps_holds more _ b w1 w2 Hw1 Hmore Hrun Hb) as Hb'.
  destruct Hb' as (Hc1 & _ & Hc3 & Hc4 & Hc5).
  rewrite <- Hidx in Hc1, Hc3, Hc5.
  assert (Hu : uint64 (nbCreatedBlock b) = blk).
  { unfold uint64. simpl. apply Z.mod_small. lia. }
  rewrite Hu in Hc3.
  apply (handle_reads resp r w2 _ _ _ _ (winv_task _ Hw2) (winv_wallet _ Hw2)
           He Hc1 Hc4 Hc3 Hc5).
Qed.

(** ** The log of the deletion loop *)

Lemma size_delete_present {K V} `{Countable K} (m : gmap K V) i x :
  m !! i = Some x -> S (size (delete i m)) = size m.
Proof.
  intros Hi. rewrite <- (insert_id m i x Hi) at 2.
  rewrite <- insert_delete_eq.
  rewrite map_size_insert_None by apply lookup_delete_eq. reflexivity.
Qed.

Lemma clearLoop_logs fuel : forall lo hi w w',
  0 <= lo -> lo <= hi + 1 -> hi < 2 ^ 32 - 1 ->
  clearLoop fuel lo hi w = Returned tt w' ->
  exists evs,
    trace w' = evs ++ trace w /\
    (length (filter isCleanedLog evs) + length (filter isNotFoundLog evs))%nat
      = Z.to_nat (hi + 1 - lo) /\
    length evs = Z.to_nat (hi + 1 - lo) /\
    (size (batchesIdentifierHashByIdx (agg w'))
     + length (filter isCleanedLog evs))%nat
      = size (batchesIdentifierHashByIdx (agg w)).
Proof.
  induction fuel as [|fuel IH]; intros lo hi w w' Hlo Hle Hhi Hr.
  { discriminate. }
  destruct (decide (lo <= hi)) as [Hin|Hout].
  - rewrite clearLoop_step in Hr by assumption.
    rewrite clearTask_returned in Hr.
    rewrite uint32_small in Hr by lia.
    apply IH in Hr; [| lia | lia | lia].
    destruct Hr as (evs & Htr & Hcount & Hlen & Hsize).
    destruct (batchesIdentifierHashByIdx (agg w) !! lo) as [h|] eqn:Hh;
      simpl in Htr, Hsize.
    + exists (evs ++ [Log Info "Cleaning up finalized task"]).
      rewrite !filter_app, !length_app. simpl.
      rewrite <- (size_delete_present _ _ _ Hh).
      split_and!; [by rewrite <- app_assoc | lia | lia | lia].
    + exists (evs ++ [Log Warn "Task not found in maps"]).
      rewrite !filter_app, !length_app. simpl.
      split_and!; [by rewrite <- app_assoc | lia | lia | lia].
  - rewrite clearLoop_done in Hr by lia. inversion Hr; subst.
    exists []. simpl. split_and!; auto; lia.
Qed.

(** X11. A round of the collector that returns has written one log line per
    index from [lastIdxDeleted + 1] to the index of the reported task: the
    line "Cleaning up finalized task" for each index that was in use, whose
    entries are then gone, and the warning "Task not found in maps" for each
    index that was not. *)
Theorem gc_round_logs_each_index ops w fuel h w' :
  run ops initWorld = Returned tt w ->
  ClearTasksFromMaps_round fuel (Some h, None) w = Returned tt w' ->
  let taskIdxToDelete := readOr 0 (batchesIdxByIdentifierHash (agg w)) h in
  exists evs,
    trace w' = evs ++ trace w /\
    (length (filter isCleanedLog evs) + length (filter isNotFoundLog evs))%nat
      = Z.to_nat (taskIdxToDelete - lastIdxDeleted w) /\
    (size (batchesIdentifierHashByIdx (agg w'))
     + length (filter isCleanedLog evs))%nat
      = size (batchesIdentifierHashByIdx (agg w)).
Proof.
  intros Hr Hround. cbv zeta.
  assert (Hw : WorldInv w) by (apply reachable_inv; by exists ops).
  destruct Hw as [Ha Ht Hwm Hl Htr].
  pose proof (readOr_idx_range (agg w) h Ha) as Hrange.
  open_world w. unfold ClearTasksFromMaps_round in Hround. run_m in Hround.
  rewrite uint32_small in Hround by lia.
  set (hi := readOr 0 (batchesIdxByIdentifierHash a) h) in *.
  match type of Hround with
  | context [clearLoop fuel (lid + 1) hi ?w0] =>
      destruct (clearLoop fuel (lid + 1) hi w0) as [[] w1| | |] eqn:E;
        try discriminate
  end.
  destruct w1 as [a1 tm1 wm1 lid1 tr1].
  assert (Hhi : hi < 2 ^ 32 - 1).
  { destruct (decide (hi = maxUint32)) as [Heq|Hne].
    - rewrite Heq, clearLoop_diverges in E by lia. discriminate.
    - unfold maxUint32 in Hne. lia. }
  inversion Hround; subst; clear Hround. simpl.
  destruct (decide (lid + 1 <= hi + 1)) as [Hle|Hgt].
  - apply clearLoop_logs in E; [| lia | lia | lia].
    destruct E as (evs & Htrace & Hcount & Hlen & Hsize). simpl in *.
    subst tr1.
    exists ([Log Info "Done cleaning finalized tasks from maps";
             Log Info "- Unlocked Resources: Cleaning finalized tasks";
             Unlock TaskMutex a1] ++ evs ++
            [Log Info "Old task found";
             Log Info "- Locked Resources: Cleaning finalized tasks";
             Lock TaskMutex;
             Log Info "Cleaning finalized tasks from maps"]).
    rewrite !filter_app, !length_app. simpl.
    split_and!.
    + rewrite <- !app_assoc. reflexivity.
    + replace (hi - lid) with (hi + 1 - (lid + 1)) by lia. lia.
    + lia.
  - destruct fuel as [|fuel]; [discriminate|].
    rewrite clearLoop_done in E by lia. inversion E; subst.
    eexists [_; _; _; _; _; _; _]. simpl.
    split_and!; [reflexivity | |].
    + match goal with
      | |- _ = Z.to_nat ?z => replace (Z.to_nat z) with 0%nat by lia
      end. reflexivity.
    + match goal with
      | |- (_ + length ?l)%nat = _ => change (length l) with 0%nat
      end. lia.
Qed.

(** ** Indices without collection *)

Lemma step_dense op w w' :
  WorldInv w -> denseBelowNext (agg w) -> notGcRound op ->
  step op w = Returned tt w' ->
  nextBatchIndex (agg w) + Z.of_nat (nonDuplicateAdmissions [op] w) < 2 ^ 32 ->
  denseBelowNext (agg w') /\
  size (batchesIdentifierHashByIdx (agg w')) =
    (size (batchesIdentifierHashByIdx (agg w))
     + nonDuplicateAdmissions [op] w)%nat /\
  size (batchesIdxByIdentifierHash (agg w')) =
    (size (batchesIdxByIdentifierHash (agg w))
     + nonDuplicateAdmissions [op] w)%nat.
Proof.
  intros Hw Hdense Hop Hr Hbound.
  pose proof (inv_next _ (winv_registry w Hw)) as Hrange.
  cbn [nonDuplicateAdmissions] in *. rewrite Hr in *.
  rewrite Nat.add_0_r in *.
  destruct op as [mr s blk now be | resp r | fuel o]; simpl in Hr, Hop;
    [| | contradiction].
  - apply AddNewTask_returned in Hr; [| apply (winv_task w Hw)].
    destruct Hr as [[-> [[j Hj]|Hslot]] | (Hh & Hi & _ & ->)].
    + rewrite Hj. simpl. split_and!; [assumption | lia | lia].
    + apply Hdense in Hslot. lia.
    + rewrite Hh in *. simpl in *.
      split_and!.
      * intros i. simpl. rewrite uint32_small by lia.
        rewrite lookup_insert. case_decide.
        -- subst i. split; [intros _; lia | eauto].
        -- rewrite (Hdense i). lia.
      * rewrite map_size_insert_None by assumption. lia.
      * rewrite map_size_insert_None by assumption. lia.
  - destruct (handle_returned resp r w (winv_task w Hw) (winv_wallet w Hw))
      as (w0 & E & Hagg & _).
    rewrite E in Hr. inversion Hr; subst. rewrite Hagg.
    split_and!; [assumption | simpl; lia | simpl; lia].
Qed.

Lemma run_dense ops : forall w w',
  WorldInv w -> denseBelowNext (agg w) -> Forall notGcRound ops ->
  run ops w = Returned tt w' ->
  nextBatchIndex (agg w) + Z.of_nat (nonDuplicateAdmissions ops w) < 2 ^ 32 ->
  denseBelowNext (agg w') /\
  size (batchesIdentifierHashByIdx (agg w')) =
    (size (batchesIdentifierHashByIdx (agg w))
     + nonDuplicateAdmissions ops w)%nat /\
  size (batchesIdxByIdentifierHash (agg w')) =
    (size (batchesIdxByIdentifierHash (agg w))
     + nonDuplicateAdmissions ops w)%nat.
Proof.
  induction ops as [|op ops IH]; intros w w' Hw Hdense Hops Hr Hbound.
  - inversion Hr; subst. simpl. split_and!; [assumption | lia | lia].
  - rewrite run_cons in Hr. apply Forall_cons in Hops as [Hop Hops].
    destruct (step op w) as [[] w1| | |] eqn:E; try discriminate.
    rewrite (nonDuplicateAdmissions_cons op ops w w1 E) in *.
    assert (Hbelow : belowNext (agg w)).
    { intros i Hi. apply Hdense in Hi. lia. }
    destruct (step_counts op w w1 Hw Hbelow E) as [Hn _]; [lia|].
    destruct (step_dense op w w1 Hw Hdense Hop E) as (Hd1 & Hs1 & Hs1');
      [lia|].
    destruct (IH w1 w') as (Hd' & Hs' & Hs''); auto.
    + eapply step_inv; eauto.
    + lia.
    + split_and!; [assumption | lia | lia].
Qed.

(** X12. Without a round of the collector, and below [2^32] admissions, the
    indices in use are exactly [0 .. nextBatchIndex - 1], and each index map
    has as many entries as there were admissions of new identifiers. *)
Theorem indices_are_dense_without_collection ops w :
  Forall notGcRound ops ->
  run ops initWorld = Returned tt w ->
  Z.of_nat (nonDuplicateAdmissions ops initWorld) < 2 ^ 32 ->
  (forall i, is_Some (batchesIdentifierHashByIdx (agg w) !! i) <->
             0 <= i < nextBatchIndex (agg w)) /\
  size (batchesIdentifierHashByIdx (agg w)) =
    nonDuplicateAdmissions ops initWorld /\
  size (batchesIdxByIdentifierHash (agg w)) =
    nonDuplicateAdmissions ops initWorld.
Proof.
  intros Hops Hr Hbound.
  assert (Hd0 : denseBelowNext (agg initWorld)).
  { intros i. simpl. rewrite lookup_empty. change (uint32 0) with 0.
    split; [intros []; discriminate | lia]. }
  assert (Hb0 : nextBatchIndex (agg initWorld)
                + Z.of_nat (nonDuplicateAdmissions ops initWorld) < 2 ^ 32).
  { change (nextBatchIndex (agg initWorld)) with 0. lia. }
  destruct (run_dense ops initWorld w initWorld_inv Hd0 Hops Hr Hb0)
    as (Hd & Hs & Hs').
  simpl in Hs, Hs'. rewrite map_size_empty in Hs. rewrite map_size_empty in Hs'.
  split_and!; assumption.
Qed.

(** ** The collector as a whole *)

Lemma rounds_without_task fuel answers : forall w,
  Forall namesNoTask answers ->
  exists w' evs,
    ClearTasksFromMaps_rounds fuel answers w = Returned tt w' /\
    agg w' = agg w /\
    taskMutex w' = taskMutex w /\
    walletMutex w' = walletMutex w /\
    lastIdxDeleted w' = lastIdxDeleted w /\
    trace w' = evs ++ trace w /\
    filter isMutexEvent evs = [] /\
    length evs = (2 * length answers)%nat.
Proof.
  induction answers as [|oldTask answers IH]; intros w Hall.
  { exists w, []. split_and!; reflexivity. }
  apply Forall_cons in Hall as [Hno Hall].
  cbn [ClearTasksFromMaps_rounds]. unfold mbind, M_bind.
  destruct oldTask as [[h|] [e|]].
  - rewrite round_error.
    destruct (IH (logged
                    [Log Error "Error getting old task hash, skipping this garbage collect";
                     Log Info "Cleaning finalized tasks from maps"] w) Hall)
      as (w' & evs & Hrun & Hagg & Ht & Hwm & Hl & Htr & Hf & Hlen).
    exists w', (evs ++ [Log Error "Error getting old task hash, skipping this garbage collect";
                        Log Info "Cleaning finalized tasks from maps"]).
    rewrite filter_app, length_app, Hf. simpl in *.
    split_and!; auto; [by rewrite <- app_assoc | lia].
  - exfalso. by apply (Hno h).
  - rewrite round_error.
    destruct (IH (logged
                    [Log Error "Error getting old task hash, skipping this garbage collect";
                     Log Info "Cleaning finalized tasks from maps"] w) Hall)
      as (w' & evs & Hrun & Hagg & Ht & Hwm & Hl & Htr & Hf & Hlen).
    exists w', (evs ++ [Log Error "Error getting old task hash, skipping this garbage collect";
                        Log Info "Cleaning finalized tasks from maps"]).
    rewrite filter_app, length_app, Hf. simpl in *.
    split_and!; auto; [by rewrite <- app_assoc | lia].
  - rewrite round_nothing.
    destruct (IH (logged
                    [Log Warn "No old tasks found";
                     Log Info "Cleaning finalized tasks from maps"] w) Hall)
      as (w' & evs & Hrun & Hagg & Ht & Hwm & Hl & Htr & Hf & Hlen).
    exists w', (evs ++ [Log Warn "No old tasks found";
                        Log Info "Cleaning finalized tasks from maps"]).
    rewrite filter_app, length_app, Hf. simpl in *.
    split_and!; auto; [by rewrite <- app_assoc | lia].
Qed.

(** X13. As long as the chain reports an error or no old task,
    [ClearTasksFromMaps] goes round after round without ever touching a
    mutex, even when one is held and whatever the fuel: the registry is as
    it was, the watermark is the [0] it started with, and each round wrote
    its two log lines. *)
Theorem collector_without_task_never_locks fuel answers w :
  Forall namesNoTask answers ->
  exists w' evs,
    ClearTasksFromMaps fuel answers w = Returned tt w' /\
    agg w' = agg w /\
    taskMutex w' = taskMutex w /\
    walletMutex w' = walletMutex w /\
    lastIdxDeleted w' = 0 /\
    trace w' = evs ++ trace w /\
    filter isMutexEvent evs = [] /\
    length evs = (1 + 2 * length answers)%nat.
Proof.
  intros Hall. unfold ClearTasksFromMaps. run_m.
  match goal with
  | |- context [ClearTasksFromMaps_rounds fuel answers ?w0] =>
      destruct (rounds_without_task fuel answers w0 Hall)
        as (w' & evs & Hrun & Hagg & Ht & Hwm & Hl & Htr & Hf & Hlen)
  end.
  exists w', (evs ++ [Log Info "- Removing finalized Task Infos from Maps every %v"]).
  rewrite Hrun, filter_app, length_app, Hf. simpl in *.
  split_and!; auto; [by rewrite <- app_assoc | lia].
Qed.

(** ** The handler and the collector *)

Lemma handle_absent resp r w :
  taskMutex w = false -> walletMutex w = false ->
  respErr resp = None ->
  batchesIdentifierHashByIdx (agg w) !! TaskIndex resp = None ->
  batchCreatedBlockByIdx (agg w) !! TaskIndex resp = None ->
  batchStartTimeByIdx (agg w) !! TaskIndex resp = None ->
  batchDataByIdentifierHash (agg w) !! zeroBytes 32 = None ->
  exists w' evs,
    handleBlsAggServiceResponse resp r w = Returned tt w' /\
    trace w' = evs ++ trace w /\
    filter isSendAggregatedResponse evs =
      [SendAggregatedResponse (zeroBytes 32) (zeroBytes 32) (zeroBytes 20)
         (payloadOf resp)].
Proof.
  intros Ht Hwm He Hidx Hblk Htime Hzero. open_world w.
  unfold handleBlsAggServiceResponse, sendAggregatedResponse.
  rewrite He. run_m. unfold readOr.
  rewrite Hidx; cbv beta iota. rewrite Hzero, Hblk, Htime; cbv beta iota.
  destruct (waitErr r), (written r) as [[rc|] [e|]]; run_m;
    new_events tr; (split_and!; reflexivity).
Qed.

(** X14. A response that arrives after its task was collected is not
    dropped: once a round of the collector has gone over an index, a response
    without error for that index makes the handler call
    [SendAggregatedResponse] with the zero identifier, merkle root and
    sender.  (No stored payload is keyed by the zero hash.) *)
Theorem response_after_collection_sends_zero_values ops w fuel h w' resp r :
  run ops initWorld = Returned tt w ->
  ClearTasksFromMaps_round fuel (Some h, None) w = Returned tt w' ->
  lastIdxDeleted w < TaskIndex resp
    <= readOr 0 (batchesIdxByIdentifierHash (agg w)) h ->
  respErr resp = None ->
  batchDataByIdentifierHash (agg w') !! zeroBytes 32 = None ->
  exists w'' evs,
    handleBlsAggServiceResponse resp r w' = Returned tt w'' /\
    trace w'' = evs ++ trace w' /\
    filter isSendAggregatedResponse evs =
      [SendAggregatedResponse (zeroBytes 32) (zeroBytes 32) (zeroBytes 20)
         (payloadOf resp)].
Proof.
  intros Hr Hround Hidx He Hzero.
  assert (Hw : WorldInv w) by (apply reachable_inv; by exists ops).
  apply round_returned in Hround as (_ & Hc & _ & Hw'); [|assumption].
  destruct (clearedRange_none _ _ _ _ (TaskIndex resp) Hc)
    as (N1 & N2 & N3 & _); [lia|].
  apply handle_absent; auto.
  - apply (winv_task _ Hw').
  - apply (winv_wallet _ Hw').
Qed.

(** ** Intake and telemetry *)

(** X15. [AddNewTask] starts the telemetry trace of the merkle root before
    it looks at the registry: [InitNewTrace] is the first event of every
    call, also of a call that finds the batch already there, which then
    ends without any further telemetry or BLS call.  A call that finds the
    task mutex held has started the trace and waits, the registry
    untouched. *)
Theorem AddNewTask_starts_trace_first mr s blk now be w :
  (taskMutex w = true ->
   AddNewTask mr s blk now be w =
   Blocked (logged [Log Info "Adding new task"; InitNewTrace mr] w)) /\
  (taskMutex w = false ->
   (exists w' evs,
      (AddNewTask mr s blk now be w = Returned tt w' \/
       AddNewTask mr s blk now be w = Exited w') /\
      trace w' = evs ++ trace w /\
      last evs = Some (InitNewTrace mr)) /\
   (is_Some (batchesIdxByIdentifierHash (agg w) !! batchIdentifierHashOf mr s)
    -> exists w' evs,
         AddNewTask mr s blk now be w = Returned tt w' /\
         trace w' = evs ++ trace w /\
         agg w' = agg w /\
         filter isInitializeNewTask evs = [] /\
         filter isFinishTrace evs = [] /\
         filter isMetric evs = [])).
Proof.
  split.
  - intros Ht. open_world w. unfold AddNewTask. run_m. reflexivity.
  - intros Ht. split.
    + destruct (batchesIdxByIdentifierHash (agg w) !! batchIdentifierHashOf mr s)
        as [j|] eqn:Hh.
      { rewrite (AddNewTask_duplicate _ _ _ _ _ _ j Ht Hh).
        eexists. eexists. split_and!; [left; reflexivity | reflexivity ..]. }
      destruct (batchesIdentifierHashByIdx (agg w) !! nextBatchIndex (agg w))
        as [h'|] eqn:Hi.
      { rewrite (AddNewTask_slot_taken _ _ _ _ _ _ h' Ht Hh Hi).
        eexists. eexists. split_and!; [left; reflexivity | reflexivity ..]. }
      destruct be as [e|].
      * open_world w. unfold AddNewTask. run_m. rewrite Hh, Hi.
        lazymatch goal with
        | |- exists w' evs, (_ \/ Exited ?W = Exited w') /\ _ =>
            let l := eval cbv [trace] in (trace W) in
            let p := prefix_upto tr l in exists W, p
        end.
        split_and!; [right; reflexivity | reflexivity ..].
      * rewrite (AddNewTask_inserted _ _ _ _ _ Ht Hh Hi).
        eexists. eexists. split_and!; [left; reflexivity | reflexivity ..].
    + intros [j Hj]. rewrite (AddNewTask_duplicate _ _ _ _ _ _ j Ht Hj).
      eexists. eexists. split_and!; reflexivity.
Qed.

(** ** The first batch *)



End Proofs.

(** * Concrete runs *)

Section Concrete.

#[local] Existing Instance testCollaborators.

(** ** The numbered batches have distinct identifiers *)

Lemma bitsDigest_length k : length (bitsDigest k) = 32%nat.
Proof. unfold bitsDigest. rewrite length_map, length_seq. reflexivity. Qed.

Lemma bitsDigest_lookup k (i : nat) :
  (i < 32)%nat ->
  bitsDigest k !! i = Some (if Z.testbit k (Z.of_nat i) then x01 else x00).
Proof.
  intros Hi. unfold bitsDigest.
  change (map ?f ?l) with (f <$> l).
  rewrite list_lookup_fmap, lookup_seq_lt by assumption. reflexivity.
Qed.

Lemma bitsDigest_inj a b :
  0 <= a < 2 ^ 32 -> 0 <= b < 2 ^ 32 ->
  bitsDigest a = bitsDigest b -> a = b.
Proof.
  intros Ha Hb Heq. apply Z.bits_inj'. intros n Hn.
  destruct (decide (n < 32)) as [Hlt|Hge].
  - assert (Hi : (Z.to_nat n < 32)%nat) by lia.
    pose proof (bitsDigest_lookup a _ Hi) as La.
    pose proof (bitsDigest_lookup b _ Hi) as Lb.
    rewrite Heq, Lb in La. rewrite Z2Nat.id in La by lia.
    destruct (Z.testbit a n), (Z.testbit b n); congruence.
  - rewrite <- (Z.mod_small a (2 ^ 32)), <- (Z.mod_small b (2 ^ 32)) by lia.
    rewrite !Z.mod_pow2_bits_high by lia. reflexivity.
Qed.

Lemma identifierOf_numbered k :
  identifierOf (numberedBatch k) = bitsDigest k.
Proof.
  unfold identifierOf, batchIdentifierHashOf, numberedBatch.
  cbn [nbMerkleRoot nbSender Keccak256 testCollaborators].
  unfold padDigest. rewrite <- app_assoc.
  apply take_app_length'. by rewrite bitsDigest_length.
Qed.

Lemma numberedBatches_NoDup n :
  n <= 2 ^ 32 -> NoDup (map identifierOf (numberedBatches n)).
Proof.
  intros Hn. unfold numberedBatches.
  change (map identifierOf (map numberedBatch (seqZ 0 n)))
    with (identifierOf <$> (numberedBatch <$> seqZ 0 n)).
  rewrite <- list_fmap_compose.
  apply NoDup_fmap_2_strong; [| apply NoDup_seqZ].
  intros x y Hx Hy Heq. unfold compose in Heq.
  rewrite !identifierOf_numbered in Heq.
  apply elem_of_seqZ in Hx, Hy. apply bitsDigest_inj; auto; lia.
Qed.

Lemma numberedBatches_length n :
  0 <= n -> Z.of_nat (length (numberedBatches n)) = n.
Proof.
  intros Hn. unfold numberedBatches. rewrite length_map, length_seqZ. lia.
Qed.

(** C4, the counterexample.  The batches number 0 to [2^32 - 1] are all new
    when they are admitted, and after these [2^32] admissions the counter is
    back at 0. *)
Lemma counter_wraps_after_2_32_admissions :
  let ops := map admission (numberedBatches (2 ^ 32)) in
  exists w,
    run ops initWorld = Returned tt w /\
    Z.of_nat (nonDuplicateAdmissions ops initWorld) = 2 ^ 32 /\
    nextBatchIndex (agg w) = 0.
Proof.
  cbv zeta.
  pose proof (numberedBatches_length (2 ^ 32) ltac:(lia)) as Hlen.
  pose proof (numberedBatches_NoDup (2 ^ 32) ltac:(lia)) as Hnd.
  generalize dependent (numberedBatches (2 ^ 32)). intros bs Hlen Hnd.
  destruct (run_fresh_admissions bs initWorld initWorld_inv initWorld_belowNext)
    as (w & Hrun & _ & Hnext & Hcount & _).
  - rewrite Hlen. change (nextBatchIndex (agg initWorld)) with 0. lia.
  - exact Hnd.
  - intros b _. apply lookup_empty.
  - exists w. split_and!; [exact Hrun | by rewrite Hcount |].
    rewrite Hnext, Hlen. reflexivity.
Qed.

(** ** The sample run *)

Lemma sampleRun_returns : run sampleRun initWorld = Returned tt sampleWorld.
Proof. vm_compute. reflexivity. Qed.

Lemma sampleWorld_free_slot :
  batchesIdentifierHashByIdx (agg sampleWorld) !! nextBatchIndex (agg sampleWorld)
  = None.
Proof. vm_compute. reflexivity. Qed.

Lemma sampleWorld_new_identifier :
  batchesIdxByIdentifierHash (agg sampleWorld)
    !! Keccak256 (bitsDigest 9 ++ zeroBytes 20) = None.
Proof. vm_compute. reflexivity. Qed.

(** ** The theorems at the sample run *)

Lemma index_maps_mutual_inverses_witness :
  run sampleRun initWorld = Returned tt sampleWorld /\
  (forall h i,
     batchesIdxByIdentifierHash (agg sampleWorld) !! h = Some i <->
     batchesIdentifierHashByIdx (agg sampleWorld) !! i = Some h).
Proof.
  split; [exact sampleRun_returns|].
  exact (proj1 (index_maps_mutual_inverses sampleRun sampleWorld
                  sampleRun_returns)).
Defined.

Lemma bls_error_response_abandons_witness :
  taskMutex sampleWorld = false /\
  exists w',
    handleBlsAggServiceResponse (testResponse 0 (Some "quorum_not_reached"))
      (testReplies None) sampleWorld = Returned tt w' /\
    agg w' = agg sampleWorld.
Proof.
  split; [reflexivity|].
  destruct (bls_error_response_abandons
              (testResponse 0 (Some "quorum_not_reached")) (testReplies None)
              "quorum_not_reached" sampleWorld eq_refl eq_refl)
    as (w' & evs & Hrun & Hagg & _).
  exists w'. split; assumption.
Defined.

Lemma missing_receipt_is_success_witness :
  taskMutex sampleWorld = false /\
  walletMutex sampleWorld = false /\
  exists w',
    handleBlsAggServiceResponse (testResponse 0 None) (testReplies None)
      sampleWorld = Returned tt w'.
Proof.
  split; [reflexivity|]. split; [reflexivity|].
  destruct (missing_receipt_is_success sampleWorld eq_refl eq_refl)
    as (_ & _ & Hhandle).
  destruct (Hhandle (testResponse 0 None) (testReplies None) eq_refl eq_refl)
    as (w' & evs & Hrun & _).
  exists w'. exact Hrun.
Defined.

Lemma unknown_index_sends_zero_values_witness :
  batchesIdentifierHashByIdx (agg sampleWorld) !! 1 = None /\
  batchDataByIdentifierHash (agg sampleWorld) !! zeroBytes 32 = None /\
  exists w' evs,
    handleBlsAggServiceResponse (testResponse 1 None) (testReplies None)
      sampleWorld = Returned tt w' /\
    trace w' = evs ++ trace sampleWorld /\
    filter isSendAggregatedResponse evs =
      [SendAggregatedResponse (zeroBytes 32) (zeroBytes 32) (zeroBytes 20)
         (payloadOf (testResponse 1 None))].
Proof.
  assert (H1 : batchesIdentifierHashByIdx (agg sampleWorld) !! 1 = None)
    by (vm_compute; reflexivity).
  assert (H2 : batchDataByIdentifierHash (agg sampleWorld) !! zeroBytes 32
               = None) by (vm_compute; reflexivity).
  split; [exact H1|]. split; [exact H2|].
  destruct (unknown_index_sends_zero_values sampleRun sampleWorld
              (testResponse 1 None) (testReplies None)
              sampleRun_returns eq_refl H1 H2)
    as (w' & evs & Hrun & Htrace & Hsend & _).
  exists w', evs. split_and!; assumption.
Defined.





Lemma gc_round_after_ten_admissions_witness :
  length (numberedBatches 10) = 10%nat /\
  NoDup (map identifierOf (numberedBatches 10)) /\
  exists w10,
    run (map admission (numberedBatches 10)) initWorld = Returned tt w10 /\
    exists fuel w',
      ClearTasksFromMaps_round fuel
        (Some (identifierOf (numberedBatch 6)), None) w10 = Returned tt w' /\
      holds (agg w') 0 (numberedBatch 0) /\
      lastIdxDeleted w' = 6.
Proof.
  assert (Hnd : NoDup (map identifierOf (numberedBatches 10)))
    by (apply numberedBatches_NoDup; lia).
  split; [reflexivity|]. split; [exact Hnd|].
  destruct (gc_round_after_ten_admissions (numberedBatches 10)
              (numberedBatch 0) (numberedBatch 6) eq_refl Hnd eq_refl eq_refl)
    as (w10 & Hrun & _ & fuel & w' & Hround & H0 & _ & _ & Hlast & _).
  exists w10. split; [exact Hrun|]. exists fuel, w'. split_and!; assumption.
Defined.

Lemma next_index_counts_admissions_witness :
  run sampleRun initWorld = Returned tt sampleWorld /\
  Z.of_nat (nonDuplicateAdmissions sampleRun initWorld) < 2 ^ 32 /\
  nextBatchIndex (agg sampleWorld)
  = Z.of_nat (nonDuplicateAdmissions sampleRun initWorld).
Proof.
  assert (Hcount : Z.of_nat (nonDuplicateAdmissions sampleRun initWorld)
                   < 2 ^ 32) by (vm_compute; reflexivity).
  split; [exact sampleRun_returns|]. split; [exact Hcount|].
  destruct (next_index_counts_admissions sampleRun sampleWorld
              sampleRun_returns Hcount) as (_ & Hnext & _).
  exact Hnext.
Defined.

(** ** The further properties at the sample run *)

Lemma sampleWorld_inv : WorldInv sampleWorld.
Proof. apply reachable_inv. exists sampleRun. exact sampleRun_returns. Qed.

Lemma sampleRun_count :
  Z.of_nat (nonDuplicateAdmissions sampleRun initWorld) < 2 ^ 32.
Proof. vm_compute. reflexivity. Qed.

Lemma sampleWorld_third_task :
  readOr 0 (batchesIdxByIdentifierHash (agg sampleWorld)) (bitsDigest 3) = 2.
Proof. vm_compute. reflexivity. Qed.

Lemma sampleWorld_no_zero_payload :
  batchDataByIdentifierHash (agg sampleWorld) !! zeroBytes 32 = None.
Proof. vm_compute. reflexivity. Qed.

Lemma sampleWorld_next_round :
  exists w',
    ClearTasksFromMaps_round 5 (Some (bitsDigest 3), None) sampleWorld
    = Returned tt w'.
Proof.
  apply round_terminates; [exact sampleWorld_inv | |].
  - rewrite sampleWorld_third_task. lia.
  - rewrite sampleWorld_third_task. vm_compute. lia.
Qed.

Lemma bls_init_failure_exits_holding_mutex_witness :
  exists w',
    AddNewTask (bitsDigest 9) (zeroBytes 20) 100 1700000009
      (Some "task already initialized") sampleWorld = Exited w' /\
    taskMutex w' = true /\
    nextBatchIndex (agg w') = 4.
Proof.
  destruct (bls_init_failure_exits_holding_mutex
              (bitsDigest 9) (zeroBytes 20) 100 1700000009
              "task already initialized" sampleWorld eq_refl
              sampleWorld_new_identifier sampleWorld_free_slot)
    as (w' & evs & Hrun & Hagg & Ht & _).
  exists w'. split_and!; auto. rewrite Hagg. reflexivity.
Defined.

Lemma AddNewTask_only_adds_witness :
  exists w',
    AddNewTask (bitsDigest 9) (zeroBytes 20) 100 1700000009 None sampleWorld
      = Returned tt w' /\
    batchesIdentifierHashByIdx (agg w') !! 0 = Some (bitsDigest 1).
Proof.
  pose proof (AddNewTask_inserted (bitsDigest 9) (zeroBytes 20) 100 1700000009
                sampleWorld eq_refl sampleWorld_new_identifier
                sampleWorld_free_slot) as H1.
  cbv zeta in H1.
  match type of H1 with _ = Returned tt ?x => set (w1 := x) in * end.
  exists w1. split; [exact H1|].
  apply (proj1 (AddNewTask_only_adds sampleRun sampleWorld
                  (bitsDigest 9) (zeroBytes 20) 100 1700000009 None w1
                  sampleRun_returns H1)).
  vm_compute. reflexivity.
Defined.

Lemma gc_round_only_removes_witness :
  exists w',
    ClearTasksFromMaps_round 5 (Some (bitsDigest 3), None) sampleWorld
      = Returned tt w' /\
    nextBatchIndex (agg w') = 3.
Proof.
  destruct sampleWorld_next_round as [w' Hround].
  exists w'. split; [exact Hround|].
  destruct (gc_round_only_removes sampleRun sampleWorld 5
              (Some (bitsDigest 3), None) w' sampleRun_returns Hround)
    as (_ & Hnext & _).
  rewrite Hnext. reflexivity.
Defined.

Lemma live_indices_above_watermark_witness :
  run sampleRun initWorld = Returned tt sampleWorld /\
  (lastIdxDeleted sampleWorld = 0 \/
   lastIdxDeleted sampleWorld < nextBatchIndex (agg sampleWorld)).
Proof.
  split; [exact sampleRun_returns|].
  exact (proj2 (live_indices_above_watermark sampleRun sampleWorld
                  sampleRun_returns sampleRun_count)).
Defined.

Lemma sent_identifier_is_digest_of_sent_payload_witness :
  run sampleRun initWorld = Returned tt sampleWorld /\
  forall h d, batchDataByIdentifierHash (agg sampleWorld) !! h = Some d ->
    h = Keccak256 (BatchMerkleRoot d ++ SenderAddress d).
Proof.
  split; [exact sampleRun_returns|].
  exact (proj1 (sent_identifier_is_digest_of_sent_payload sampleRun
                  sampleWorld sampleRun_returns)).
Defined.

Lemma handler_finishes_trace_and_releases_witness :
  exists w',
    handleBlsAggServiceResponse (testResponse 2 None) testRepliesFailing
      sampleWorld = Returned tt w' /\
    taskMutex w' = false /\ walletMutex w' = false.
Proof.
  destruct (handler_finishes_trace_and_releases (testResponse 2 None)
              testRepliesFailing sampleWorld eq_refl eq_refl)
    as (w' & evs & Hrun & _ & _ & _ & Ht & Hw & _).
  exists w'. split_and!; assumption.
Defined.

Lemma send_failure_is_recorded_not_retried_witness :
  exists w' evs,
    handleBlsAggServiceResponse (testResponse 2 None) testRepliesFailing
      sampleWorld = Returned tt w' /\
    trace w' = evs ++ trace sampleWorld /\
    filter isTaskSentToEthereum evs = [].
Proof.
  destruct (send_failure_is_recorded_not_retried (testResponse 2 None)
              testRepliesFailing None "transaction reverted" sampleWorld
              eq_refl eq_refl eq_refl eq_refl)
    as (w' & evs & Hrun & Htr & _ & _ & Hsent & _).
  exists w', evs. split_and!; assumption.
Defined.

Lemma wait_failure_does_not_stop_submission_witness :
  exists w' evs,
    handleBlsAggServiceResponse (testResponse 2 None) testRepliesFailing
      sampleWorld = Returned tt w' /\
    trace w' = evs ++ trace sampleWorld /\
    length (filter isSendAggregatedResponse evs) = 1%nat.
Proof.
  destruct (wait_failure_does_not_stop_submission (testResponse 2 None)
              testRepliesFailing sampleWorld eq_refl eq_refl eq_refl)
    as (w' & evs & Hrun & Htr & Hone & _).
  exists w', evs. split_and!; assumption.
Defined.

Lemma waiting_for_wallet_keeps_registry_free_witness :
  exists w',
    handleBlsAggServiceResponse (testResponse 2 None) (testReplies None)
      sampleWorldSending = Blocked w' /\
    taskMutex w' = false.
Proof.
  destruct (proj1 (waiting_for_wallet_keeps_registry_free
                     (testResponse 2 None) (testReplies None)
                     sampleWorldSending eq_refl eq_refl) eq_refl)
    as (w' & evs & Hrun & _ & Ht & _).
  exists w'. split; assumption.
Defined.

Lemma handler_reads_back_admitted_values_witness :
  exists w1,
    AddNewTask (bitsDigest 9) (zeroBytes 20) 100 1700000009 None sampleWorld
      = Returned tt w1 /\
    exists w3 evs,
      handleBlsAggServiceResponse (testResponse 3 None) (testReplies None) w1
        = Returned tt w3 /\
      trace w3 = evs ++ trace w1 /\
      WaitForOneBlock 100 ∈ evs.
Proof.
  destruct (handler_reads_back_admitted_values sampleRun sampleWorld
              (bitsDigest 9) (zeroBytes 20) 100 1700000009
              sampleRun_returns sampleWorld_new_identifier
              sampleWorld_free_slot ltac:(lia))
    as (w1 & H1 & Hlater).
  exists w1. split; [exact H1|].
  destruct (Hlater [] w1 (testResponse 3 None) (testReplies None)
              (Forall_nil_2 _) eq_refl eq_refl eq_refl)
    as (w3 & evs & Hrun & Htr & Hwait & _).
  exists w3, evs. split_and!; assumption.
Defined.

Lemma gc_round_logs_each_index_witness :
  exists w' evs,
    ClearTasksFromMaps_round 5 (Some (bitsDigest 3), None) sampleWorld
      = Returned tt w' /\
    trace w' = evs ++ trace sampleWorld /\
    (length (filter isCleanedLog evs) + length (filter isNotFoundLog evs))%nat
      = 1%nat.
Proof.
  destruct sampleWorld_next_round as [w' Hround].
  destruct (gc_round_logs_each_index sampleRun sampleWorld 5 (bitsDigest 3)
              w' sampleRun_returns Hround) as (evs & Htr & Hcount & _).
  exists w', evs. split_and!; [exact Hround | exact Htr |].
  rewrite Hcount, sampleWorld_third_task. reflexivity.
Defined.

Lemma indices_are_dense_without_collection_witness :
  exists w,
    run (map admission (numberedBatches 3)) initWorld = Returned tt w /\
    forall i, is_Some (batchesIdentifierHashByIdx (agg w) !! i) <->
              0 <= i < nextBatchIndex (agg w).
Proof.
  assert (Hroom : nextBatchIndex (agg initWorld)
                  + Z.of_nat (length (numberedBatches 3)) <= 2 ^ 32)
    by (vm_compute; discriminate).
  assert (Hfresh : forall b, b ∈ numberedBatches 3 ->
            batchesIdxByIdentifierHash (agg initWorld) !! identifierOf b
            = None) by (intros b _; apply lookup_empty).
  destruct (run_fresh_admissions (numberedBatches 3) initWorld initWorld_inv
              initWorld_belowNext Hroom
              (numberedBatches_NoDup 3 ltac:(lia)) Hfresh)
    as (w & Hrun & _ & _ & Hcount & _).
  exists w. split; [exact Hrun|].
  apply (indices_are_dense_without_collection
           (map admission (numberedBatches 3)) w).
  - apply Forall_forall. intros op Hin.
    apply list_elem_of_In, in_map_iff in Hin as (b & <- & _). exact I.
  - exact Hrun.
  - rewrite Hcount. vm_compute. reflexivity.
Defined.

Lemma collector_without_task_never_locks_witness :
  exists w',
    ClearTasksFromMaps 0 [(None, Some "rpc timeout"%string); (None, None)]
      sampleWorldSending = Returned tt w' /\
    agg w' = agg sampleWorldSending /\
    lastIdxDeleted w' = 0.
Proof.
  destruct (collector_without_task_never_locks 0
              [(None, Some "rpc timeout"%string); (None, None)]
              sampleWorldSending)
    as (w' & evs & Hrun & Hagg & _ & _ & Hl & _).
  - repeat (apply Forall_cons_2; [intros h; discriminate|]).
    apply Forall_nil_2.
  - exists w'. split_and!; assumption.
Defined.

Lemma response_after_collection_sends_zero_values_witness :
  exists w' w'' evs,
    ClearTasksFromMaps_round 5 (Some (bitsDigest 3), None) sampleWorld
      = Returned tt w' /\
    handleBlsAggServiceResponse (testResponse 2 None) (testReplies None) w'
      = Returned tt w'' /\
    trace w'' = evs ++ trace w' /\
    filter isSendAggregatedResponse evs =
      [SendAggregatedResponse (zeroBytes 32) (zeroBytes 32) (zeroBytes 20)
         (payloadOf (testResponse 2 None))].
Proof.
  destruct sampleWorld_next_round as [w' Hround].
  assert (Hzero : batchDataByIdentifierHash (agg w') !! zeroBytes 32 = None).
  { destruct (batchDataByIdentifierHash (agg w') !! zeroBytes 32) eqn:E;
      [|reflexivity].
    pose proof (round_returned 5 (bitsDigest 3) sampleWorld w'
                  sampleWorld_inv Hround) as (_ & Hc & _ & _).
    apply (clearedRange_only_removes _ _ _ _ Hc) in E.
    rewrite sampleWorld_no_zero_payload in E. discriminate. }
  destruct (response_after_collection_sends_zero_values sampleRun sampleWorld
              5 (bitsDigest 3) w' (testResponse 2 None) (testReplies None)
              sampleRun_returns Hround)
    as (w'' & evs & Hrun & Htr & Hsend); auto.
  { rewrite sampleWorld_third_task. vm_compute. split; congruence. }
  exists w', w'', evs. split_and!; assumption.
Defined.


End Concrete.
